(** * git-backup: the repository sync engine and the run orchestrator

    A shallow embedding of [repository.go] ([fetchAllRefs], [CloneInto]),
    of the notifier ([SendSlackNotification]) and of the orchestrator
    ([main] in [cmd/git-backup/main.go]).

    The Go code talks to the outside world through go-git, the file
    system, the clock and HTTP.  Those libraries are not part of the
    program: they are represented by an environment [Env] that answers
    every call as a function of the calls answered so far.  The program
    itself is written in a state monad over the record of calls and log
    lines, with two ways of not returning a value: [os.Exit] and a
    nil-pointer panic. *)

From Stdlib Require Import ZArith List String Bool Lia DecimalString Permutation.
Import ListNotations.

Local Open Scope string_scope.
Local Open Scope Z_scope.

(* ===================================================================== *)
(** ** Go errors *)

(** The three sentinel errors the code tests for:
    [git.NoErrAlreadyUpToDate], [git.ErrRepositoryAlreadyExists] and
    [transport.ErrEmptyRemoteRepository]. *)
Inductive sentinel : Type :=
| NoErrAlreadyUpToDate
| ErrRepositoryAlreadyExists
| ErrEmptyRemoteRepository.

(** A non-nil Go [error] value: one of the sentinels, some other leaf
    error, or an error wrapping another one ([fmt.Errorf] with [%w]).
    A nil [error] is [None] in [option error]. *)
Inductive error : Type :=
| Sentinel (s : sentinel)
| ErrorString (msg : string)
| Wrapped (msg : string) (cause : error).

Definition sentinel_eqb (a b : sentinel) : bool :=
  match a, b with
  | NoErrAlreadyUpToDate, NoErrAlreadyUpToDate => true
  | ErrRepositoryAlreadyExists, ErrRepositoryAlreadyExists => true
  | ErrEmptyRemoteRepository, ErrEmptyRemoteRepository => true
  | _, _ => false
  end.

(** [errors.Is(err, target)] for a sentinel target: walks the chain of
    wrapped errors. *)
Fixpoint Is (e : error) (target : sentinel) : bool :=
  match e with
  | Sentinel s => sentinel_eqb s target
  | ErrorString _ => false
  | Wrapped _ cause => Is cause target
  end.

Definition errors_Is (err : option error) (target : sentinel) : bool :=
  match err with
  | None => false
  | Some e => Is e target
  end.

(** [err == target]: identity with the sentinel itself, no unwrapping. *)
Definition err_eq (err : option error) (target : sentinel) : bool :=
  match err with
  | Some (Sentinel s) => sentinel_eqb s target
  | _ => false
  end.

Definition is_nil {A : Type} (err : option A) : bool :=
  match err with
  | None => true
  | Some _ => false
  end.

(** [err.Error()].  The sentinels carry go-git's texts. *)
Definition Error (e : error) : string :=
  match e with
  | Sentinel NoErrAlreadyUpToDate => "already up-to-date"
  | Sentinel ErrRepositoryAlreadyExists => "repository already exists"
  | Sentinel ErrEmptyRemoteRepository => "remote repository is empty"
  | ErrorString msg => msg
  | Wrapped msg _ => msg
  end.

(* ===================================================================== *)
(** ** Data of [repository.go] and of the go-git interface *)

(** [url.Userinfo]: [Password()] returns the password and whether it is
    set. *)
Record Userinfo : Type := {
  Username : string;
  Password : option string
}.

(** [url.URL], with the components the code looks at. *)
Record URL : Type := {
  Scheme : string;
  User : option Userinfo;
  Host : string;
  Path : string
}.

Record Repository : Type := {
  GitURL : URL;
  FullName : string
}.

(** [http.BasicAuth]. *)
Record BasicAuth : Type := {
  auth_Username : string;
  auth_Password : string
}.

(** [git.TagMode]; [InvalidTagMode] is the zero value of an unset field. *)
Inductive TagMode : Type := InvalidTagMode | TagFollowing | AllTags | NoTags.

(** [git.CloneOptions], [git.FetchOptions], [git.PullOptions] with the
    fields the code sets ([Progress] is always [os.Stdout]).  The URL is
    handed over as the record, not rendered by [String()]. *)
Record CloneOptions : Type := {
  clone_URL : URL;
  clone_Auth : option BasicAuth;
  clone_Mirror : bool
}.

Record FetchOptions : Type := {
  fetch_Auth : option BasicAuth;
  fetch_RefSpecs : list string;
  fetch_Tags : TagMode;
  fetch_Force : bool
}.

Record PullOptions : Type := {
  pull_Auth : option BasicAuth
}.

(** Handles for [*git.Repository] and [*git.Worktree] values. *)
Definition repo := nat.
Definition worktree := nat.

(** [BackupResult] (the same struct in [main.go] and [slack.go]).  Go's
    [int] is a 64-bit signed integer, times and durations are counted in
    nanoseconds. *)
Record BackupResult : Type := {
  RepoCount : Z;
  ErrorCount : Z;
  Duration : Z;
  FailedRepos : list string;
  StartTime : Z;
  EndTime : Z;
  Success : bool
}.

(** The marshalled JSON body. *)
Definition payload := string.

(** The [RepositorySource] interface.  Each method is called once per
    source and run, so a source is given by what its methods answer. *)
Record RepositorySource : Type := {
  GetName : string;
  Test : option error;
  ListRepositories : list Repository * option error
}.

(* ===================================================================== *)
(** ** The world outside the program *)

(** One entry per call into a library, with what the library answered. *)
Inductive call : Type :=
| PlainClone (path : string) (isBare : bool) (o : CloneOptions)
    (res : option repo * option error)
| PlainOpen (path : string) (res : repo + error)
| RepoConfig (g : repo) (res : bool + error)
| RepoWorktree (g : repo) (res : worktree + error)
| WorktreePull (w : worktree) (o : PullOptions) (res : option error)
| RepoFetch (g : repo) (o : FetchOptions) (res : option error)
| RuntimeGC
| MkdirAll (path : string) (res : option error)
| TimeNow (t : Z)
| JsonMarshal (b : BackupResult) (res : payload + error)
| HttpPost (url : string) (body : payload) (res : Z + error).

(** The environment: each library function answers from the history of
    calls (newest first) and its arguments.  [git_PlainClone] can return a repository
    together with an error, as go-git does; the other go-git calls return
    a value or an error.  [json_Marshal] stands for
    [json.Marshal(createSlackMessage(result))], [http_Post] answers with
    the response's [StatusCode] or a transport error, [gitbackup_LoadFile]
    with the sources of the configuration file ([GetSources]) or the
    error of loading it. *)
Record Env : Type := {
  git_PlainClone :
    list call -> string -> bool -> CloneOptions -> option repo * option error;
  git_PlainOpen : list call -> string -> repo + error;
  repo_Config : list call -> repo -> bool + error;
  repo_Worktree : list call -> repo -> worktree + error;
  worktree_Pull : list call -> worktree -> PullOptions -> option error;
  repo_Fetch : list call -> repo -> FetchOptions -> option error;
  os_MkdirAll : list call -> string -> option error;
  time_Now : list call -> Z;
  json_Marshal : list call -> BackupResult -> payload + error;
  http_Post : list call -> string -> payload -> Z + error;
  filepath_Join : list string -> string;
  os_Getenv : string -> string;
  gitbackup_LoadFile : string -> list RepositorySource + error;
  os_IsNotExist : error -> bool;
  runtime_GOOS : string;
  runtime_GOARCH : string
}.

(** An argument of a [Printf]-style call, by the verb that prints it. *)
Inductive fmt_arg : Type :=
| ArgS (s : string)
| ArgD (n : Z)
| ArgV (err : option error)
| ArgB (b : bool)
| ArgDur (d : Z).

(** A line written by [log.Printf], kept as format and arguments;
    [logMemoryUsage] prints the runtime's memory statistics, of which only
    the operation label is kept. *)
Inductive log_line : Type :=
| Printf (format : string) (args : list fmt_arg)
| MemoryUsage (operation : string).

(** What has happened so far, newest entry first. *)
Record World : Type := {
  calls : list call;
  logs : list log_line
}.

Definition init_world : World := {| calls := []; logs := [] |}.

(* ===================================================================== *)
(** ** The monad of the program *)

Inductive outcome (A : Type) : Type :=
| Val (a : A)
| Exit (code : Z)
| Panic.

Arguments Val {A} a.
Arguments Exit {A} code.
Arguments Panic {A}.

Definition M (A : Type) : Type := World -> outcome A * World.

Definition ret {A : Type} (a : A) : M A := fun w => (Val a, w).

Definition bind {A B : Type} (c : M A) (k : A -> M B) : M B :=
  fun w =>
    match c w with
    | (Val a, w') => k a w'
    | (Exit code, w') => (Exit code, w')
    | (Panic, w') => (Panic, w')
    end.

Declare Scope go_scope.
Delimit Scope go_scope with go.
Notation "x <- c ;; k" := (bind c (fun x => k))
  (at level 100, c at next level, right associativity) : go_scope.
Notation "' pat <- c ;; k" := (bind c (fun x => match x with pat => k end))
  (at level 100, pat pattern, c at next level, right associativity) : go_scope.
Notation "c ;; k" := (bind c (fun _ => k))
  (at level 100, right associativity) : go_scope.
Local Open Scope go_scope.

Definition os_Exit {A : Type} (code : Z) : M A := fun w => (Exit code, w).
Definition panic {A : Type} : M A := fun w => (Panic, w).

Definition record (c : call) (w : World) : World :=
  {| calls := c :: calls w; logs := logs w |}.

Definition log_Printf (format : string) (args : list fmt_arg) : M unit :=
  fun w => (Val tt, {| calls := calls w; logs := Printf format args :: logs w |}).

(** [logMemoryUsage] *)
Definition logMemoryUsage (operation : string) : M unit :=
  fun w => (Val tt, {| calls := calls w; logs := MemoryUsage operation :: logs w |}).

Definition runtime_GC : M unit :=
  fun w => (Val tt, record RuntimeGC w).

(** [forceGC] *)
Definition forceGC (operation : string) : M unit :=
  runtime_GC ;;
  logMemoryUsage operation.

Section Program.

Variable env : Env.

Definition PlainClone_ (path : string) (isBare : bool) (o : CloneOptions)
  : M (option repo * option error) :=
  fun w =>
    let res := git_PlainClone env (calls w) path isBare o in
    (Val res, record (PlainClone path isBare o res) w).

Definition PlainOpen_ (path : string) : M (repo + error) :=
  fun w =>
    let res := git_PlainOpen env (calls w) path in
    (Val res, record (PlainOpen path res) w).

Definition Config_ (g : repo) : M (bool + error) :=
  fun w =>
    let res := repo_Config env (calls w) g in
    (Val res, record (RepoConfig g res) w).

Definition Worktree_ (g : repo) : M (worktree + error) :=
  fun w =>
    let res := repo_Worktree env (calls w) g in
    (Val res, record (RepoWorktree g res) w).

Definition Pull_ (wt : worktree) (o : PullOptions) : M (option error) :=
  fun w =>
    let res := worktree_Pull env (calls w) wt o in
    (Val res, record (WorktreePull wt o res) w).

(** [gitRepo.Fetch]: a method call on a nil [*git.Repository] dereferences
    it and panics. *)
Definition Fetch_ (gitRepo : option repo) (o : FetchOptions) : M (option error) :=
  match gitRepo with
  | None => panic
  | Some g =>
      fun w =>
        let res := repo_Fetch env (calls w) g o in
        (Val res, record (RepoFetch g o res) w)
  end.

(* ===================================================================== *)
(** ** [repository.go] *)

(** [isBare]: [(false, err)] when the configuration cannot be read. *)
Definition isBare (g : repo) : M (bool * option error) :=
  c <- Config_ g ;;
  match c with
  | inr err => ret (false, Some err)
  | inl b => ret (b, None)
  end.

Definition branch_fetch_options (auth : option BasicAuth) : FetchOptions :=
  {| fetch_Auth := auth;
     fetch_RefSpecs := ["+refs/heads/*:refs/heads/*"];
     fetch_Tags := InvalidTagMode;
     fetch_Force := true |}.

Definition tag_fetch_options (auth : option BasicAuth) : FetchOptions :=
  {| fetch_Auth := auth;
     fetch_RefSpecs := [];
     fetch_Tags := AllTags;
     fetch_Force := true |}.

Definition fallback_fetch_options (auth : option BasicAuth) : FetchOptions :=
  {| fetch_Auth := auth;
     fetch_RefSpecs := ["+refs/tags/*:refs/tags/*"];
     fetch_Tags := InvalidTagMode;
     fetch_Force := true |}.

(** [err != nil && err != git.NoErrAlreadyUpToDate] *)
Definition fetch_failed (err : option error) : bool :=
  negb (is_nil err) && negb (err_eq err NoErrAlreadyUpToDate).

(** [fetchAllRefs] *)
Definition fetchAllRefs (r : Repository) (gitRepo : option repo)
    (auth : option BasicAuth) : M (option error) :=
  log_Printf "Fetching all branches and tags for %s" [ArgS (FullName r)] ;;
  logMemoryUsage ("Before fetch for " ++ FullName r) ;;
  err <- Fetch_ gitRepo (branch_fetch_options auth) ;;
  logMemoryUsage ("After branch fetch for " ++ FullName r) ;;
  (if fetch_failed err
   then log_Printf "Branch fetch failed for %s: %v" [ArgS (FullName r); ArgV err]
   else ret tt) ;;
  runtime_GC ;;
  err <- Fetch_ gitRepo (tag_fetch_options auth) ;;
  logMemoryUsage ("After tag fetch for " ++ FullName r) ;;
  if fetch_failed err
  then
    log_Printf "Tag fetch failed for %s: %v" [ArgS (FullName r); ArgV err] ;;
    Fetch_ gitRepo (fallback_fetch_options auth)
  else ret err.

(** The credentials taken from the URL's user-info (lines 113-120). *)
Definition url_auth (u : URL) : option BasicAuth :=
  match User u with
  | None => None
  | Some info =>
      Some {| auth_Username := Username info;
              auth_Password := match Password info with
                               | Some p => p
                               | None => ""
                               end |}
  end.

(** Lines 133-152: what happens when the clone reports that a repository
    already exists at the path.  Returns the new values of [gitRepo] and
    [err]. *)
Definition update_existing (r : Repository) (path : string)
    (auth : option BasicAuth) : M (option repo * option error) :=
  opened <- PlainOpen_ path ;;
  match opened with
  | inr err => ret (None, Some err)
  | inl g =>
      '(bare, bErr) <- isBare g ;;
      if is_nil bErr && negb bare
      then
        wt <- Worktree_ g ;;
        match wt with
        | inr wErr => ret (Some g, Some wErr)
        | inl w =>
            err <- Pull_ w {| pull_Auth := auth |} ;;
            ret (Some g, err)
        end
      else
        err <- fetchAllRefs r (Some g) auth ;;
        ret (Some g, err)
  end.

(** The options of the mirror clone (lines 124-129). *)
Definition clone_options (r : Repository) : CloneOptions :=
  {| clone_URL := GitURL r;
     clone_Auth := url_auth (GitURL r);
     clone_Mirror := true |}.

(** Lines 111-152: the clone attempt and, if a repository exists, the
    update. *)
Definition clone_or_update (r : Repository) (path : string) (bare : bool)
    : M (option repo * option error) :=
  logMemoryUsage ("Starting clone for " ++ FullName r) ;;
  log_Printf "Starting mirror clone for %s" [ArgS (FullName r)] ;;
  '(gitRepo, err) <- PlainClone_ path bare (clone_options r) ;;
  logMemoryUsage ("After clone attempt for " ++ FullName r) ;;
  if errors_Is err ErrRepositoryAlreadyExists
  then update_existing r path (url_auth (GitURL r))
  else ret (gitRepo, err).

(** Lines 172-178: the final [switch err]. *)
Definition classify_refresh (r : Repository) (err : option error)
    : M (option error) :=
  if err_eq err NoErrAlreadyUpToDate
  then
    log_Printf "All refs up-to-date for %s" [ArgS (FullName r)] ;;
    ret None
  else ret err.

(** Lines 165-178: the ref refresh every successful clone, pull or update
    runs into, and the classification of its result. *)
Definition refresh_other_refs (r : Repository) (gitRepo : option repo)
    : M (option error) :=
  log_Printf "Fetching all branches and tags for %s" [ArgS (FullName r)] ;;
  err <- fetchAllRefs r gitRepo (url_auth (GitURL r)) ;;
  forceGC ("After fetch for " ++ FullName r) ;;
  classify_refresh r err.

(** Lines 154-178.  Go tries the [case]s in source order and takes
    [default] only when none matches. *)
Definition after_clone (r : Repository) (gitRepo : option repo)
    (err : option error) : M (option error) :=
  if errors_Is err ErrEmptyRemoteRepository
  then
    log_Printf "%s is an empty repository" [ArgS (FullName r)] ;;
    ret None
  else if errors_Is err NoErrAlreadyUpToDate
  then
    log_Printf "No need to pull, %s is already up-to-date" [ArgS (FullName r)] ;;
    refresh_other_refs r gitRepo
  else if is_nil err
  then refresh_other_refs r gitRepo
  else ret err.

(** [CloneInto] *)
Definition CloneInto (r : Repository) (path : string) (bare : bool)
    : M (option error) :=
  '(gitRepo, err) <- clone_or_update r path bare ;;
  after_clone r gitRepo err.

End Program.

(* ===================================================================== *)
(** ** [cmd/git-backup/main.go] *)

(** Go's [int] on the 64-bit targets: arithmetic wraps around. *)
Definition max_int : Z := 2 ^ 63 - 1.
Definition min_int : Z := - 2 ^ 63.

Definition wrap_int (z : Z) : Z := (z + 2 ^ 63) mod 2 ^ 64 - 2 ^ 63.

(** [n++] *)
Definition incr (n : Z) : Z := wrap_int (n + 1).

(** [t.Sub(u)]: the difference, saturated to the range of a [Duration]. *)
Definition time_Sub (t u : Z) : Z := Z.max min_int (Z.min max_int (t - u)).

(** [fmt.Sprintf("%d", n)] *)
Definition fmt_d (n : Z) : string := NilZero.string_of_int (Z.to_int n).

Definition Version : string := "dev".
Definition CommitHash : string := "n/a".
Definition BuildTimestamp : string := "n/a".

(** The command-line flags. *)
Record Flags : Type := {
  configFilePath : string;
  targetPath : string;
  failAtEnd : bool;
  bareClone : bool;
  printVersion : bool;
  enableInsecure : bool;
  slackWebhook : string
}.

(** The three counters of [main]: [repoCount], [errors], [failedRepos]. *)
Record Tally : Type := {
  repoCount : Z;
  errors : Z;
  failedRepos : list string
}.

Section Orchestrator.

Variable env : Env.

Definition MkdirAll_ (path : string) : M (option error) :=
  fun w =>
    let res := os_MkdirAll env (calls w) path in
    (Val res, record (MkdirAll path res) w).

Definition Now_ : M Z :=
  fun w =>
    let t := time_Now env (calls w) in
    (Val t, record (TimeNow t) w).

Definition Marshal_ (b : BackupResult) : M (payload + error) :=
  fun w =>
    let res := json_Marshal env (calls w) b in
    (Val res, record (JsonMarshal b res) w).

Definition Post_ (url : string) (body : payload) : M (Z + error) :=
  fun w =>
    let res := http_Post env (calls w) url body in
    (Val res, record (HttpPost url body res) w).

(** [http.StatusOK] *)
Definition StatusOK : Z := 200.

(** [SendSlackNotification] *)
Definition SendSlackNotification (webhookURL : string) (result : BackupResult)
    : M (option error) :=
  if (webhookURL =? "")%string
  then ret (Some (ErrorString "Slack webhook URL is not configured"))
  else
    m <- Marshal_ result ;;
    match m with
    | inr err =>
        ret (Some (ErrorString ("failed to marshal Slack message: " ++ Error err)))
    | inl body =>
        resp <- Post_ webhookURL body ;;
        match resp with
        | inr err =>
            ret (Some (ErrorString ("failed to send Slack notification: " ++ Error err)))
        | inl StatusCode =>
            if negb (StatusCode =? StatusOK)
            then ret (Some (ErrorString
                              ("Slack API returned status code: " ++ fmt_d StatusCode)))
            else ret None
        end
    end.

(** The block that precedes every fatal [os.Exit] of the source loop:
    a failure summary is sent if a webhook is configured, then the
    process exits.  [Duration] is evaluated before [EndTime]. *)
Definition notify_and_exit {A : Type} (webhookURL : string) (backupStart : Z)
    (count errs : Z) (failed : list string) (code : Z) : M A :=
  (if negb (webhookURL =? "")%string
   then
     now1 <- Now_ ;;
     now2 <- Now_ ;;
     SendSlackNotification webhookURL
       {| RepoCount := count;
          ErrorCount := errs;
          Duration := time_Sub now1 backupStart;
          FailedRepos := failed;
          StartTime := backupStart;
          EndTime := now2;
          Success := false |} ;;
     ret tt
   else ret tt) ;;
  os_Exit code.

(** The body of the loop over the repositories of a source (lines
    238-287), from the counters before to the counters after. *)
Definition backup_repo (fl : Flags) (webhookURL : string) (backupStart : Z)
    (sourceName : string) (t : Tally) (r : Repository) : M Tally :=
  log_Printf "Discovered %s" [ArgS (FullName r)] ;;
  let path := filepath_Join env [targetPath fl; sourceName; FullName r] in
  err <- MkdirAll_ path ;;
  match err with
  | Some _ =>
      log_Printf "Failed to create directory: %s" [ArgV err] ;;
      let errs := incr (errors t) in
      let failed :=
        app (failedRepos t) [FullName r ++ " (directory creation failed)"] in
      (if negb (failAtEnd fl)
       then notify_and_exit webhookURL backupStart (repoCount t) errs failed 100
       else ret tt) ;;
      (* continue *)
      ret {| repoCount := repoCount t; errors := errs; failedRepos := failed |}
  | None =>
      err <- CloneInto env r path (bareClone fl) ;;
      t' <- match err with
            | Some e =>
                let errs := incr (errors t) in
                let failed :=
                  app (failedRepos t) [FullName r ++ " (" ++ Error e ++ ")"] in
                log_Printf "Failed to clone: %s" [ArgV err] ;;
                (if negb (failAtEnd fl)
                 then notify_and_exit webhookURL backupStart (repoCount t) errs failed 100
                 else ret tt) ;;
                ret {| repoCount := repoCount t; errors := errs; failedRepos := failed |}
            | None => ret t
            end ;;
      ret {| repoCount := incr (repoCount t');
             errors := errors t';
             failedRepos := failedRepos t' |}
  end.

(** [for _, x := range xs { ... }] over the counters. *)
Fixpoint for_range {X : Type} (body : Tally -> X -> M Tally) (xs : list X)
    (t : Tally) : M Tally :=
  match xs with
  | [] => ret t
  | x :: rest =>
      t' <- body t x ;;
      for_range body rest t'
  end.

(** The body of the loop over the sources (lines 200-288). *)
Definition backup_source (fl : Flags) (webhookURL : string) (backupStart : Z)
    (t : Tally) (source : RepositorySource) : M Tally :=
  let sourceName := GetName source in
  log_Printf "=== %s ===" [ArgS sourceName] ;;
  match Test source with
  | Some err =>
      log_Printf "Failed to verify connection to job [%s]: %s"
        [ArgS sourceName; ArgV (Some err)] ;;
      notify_and_exit webhookURL backupStart 0 1
        ["Connection failed to " ++ sourceName ++ ": " ++ Error err] 110
  | None =>
      match ListRepositories source with
      | (_, Some err) =>
          log_Printf "Communication Error: %s" [ArgV (Some err)] ;;
          notify_and_exit webhookURL backupStart 0 1
            ["Communication error with " ++ sourceName ++ ": " ++ Error err] 100
      | (repos, None) =>
          for_range (backup_repo fl webhookURL backupStart sourceName) repos t
      end
  end.

(** Lines 290-321: the final summary, the notification and the exit
    status. *)
Definition finish (webhookURL : string) (backupStart : Z) (t : Tally) : M unit :=
  backupEnd <- Now_ ;;
  let duration := time_Sub backupEnd backupStart in
  let success := errors t =? 0 in
  log_Printf "Backed up %d repositories in %s, encountered %d errors"
    [ArgD (repoCount t); ArgDur duration; ArgD (errors t)] ;;
  (if negb (webhookURL =? "")%string
   then
     err <- SendSlackNotification webhookURL
              {| RepoCount := repoCount t;
                 ErrorCount := errors t;
                 Duration := duration;
                 FailedRepos := failedRepos t;
                 StartTime := backupStart;
                 EndTime := backupEnd;
                 Success := success |} ;;
     match err with
     | Some _ => log_Printf "Failed to send Slack notification: %v" [ArgV err]
     | None => log_Printf "Slack notification sent successfully" []
     end
   else log_Printf "No Slack webhook URL configured, skipping notification" []) ;;
  if errors t >? 0 then os_Exit 100 else ret tt.

(** [loadConfig] *)
Definition loadConfig (fl : Flags) : M (list RepositorySource) :=
  match gitbackup_LoadFile env (configFilePath fl) with
  | inr err =>
      if os_IsNotExist env err
      then
        log_Printf "No config file found. Exiting..." [] ;;
        os_Exit 1
      else
        log_Printf "Error: %s" [ArgV (Some err)] ;;
        os_Exit 1
  | inl sources => ret sources
  end.

(** [main].  Replacing the TLS configuration under [-insecure] changes
    how the libraries connect, not what the program does with their
    answers. *)
Definition main (fl : Flags) : M unit :=
  log_Printf "inscure: %v" [ArgB (enableInsecure fl)] ;;
  (if printVersion fl
   then
     log_Printf "git-backup, version %s (%s-%s)"
       [ArgS Version; ArgS (runtime_GOOS env); ArgS (runtime_GOARCH env)] ;;
     log_Printf "Built %s (%s)" [ArgS CommitHash; ArgS BuildTimestamp] ;;
     os_Exit 0
   else ret tt) ;;
  let webhookURL :=
    if (slackWebhook fl =? "")%string
    then os_Getenv env "SLACK_WEBHOOK_URL"
    else slackWebhook fl in
  sources <- loadConfig fl ;;
  (if (List.length sources =? 0)%nat
   then
     log_Printf
       "Found a config file at [%s] but detected no sources. Are you sure the file is properly formed?"
       [ArgS (configFilePath fl)] ;;
     os_Exit 111
   else ret tt) ;;
  backupStart <- Now_ ;;
  t <- for_range (backup_source fl webhookURL backupStart) sources
         {| repoCount := 0; errors := 0; failedRepos := [] |} ;;
  finish webhookURL backupStart t.

(** The status the process ends with: 0 when [main] returns, the argument
    of [os.Exit], 2 after a panic. *)
Definition exit_status {A : Type} (o : outcome A) : Z :=
  match o with
  | Val _ => 0
  | Exit code => code
  | Panic => 2
  end.

End Orchestrator.



(* ===================================================================== *)
(** ** The Slack message ([createSlackMessage]) *)

From Stdlib Require Import Ascii.

(** [Field], [Attachment] and [SlackMessage], with the name of the struct
    in front of the field names the structs share. *)
Record Field : Type := {
  field_Title : string;
  field_Value : string;
  field_Short : bool
}.

Record Attachment : Type := {
  att_Color : string;
  att_Title : string;
  att_Text : string;
  att_Fields : list Field;
  att_Footer : string;
  att_Timestamp : Z
}.

Record SlackMessage : Type := {
  msg_Text : string;
  msg_Username : string;
  msg_IconEmoji : string;
  msg_Channel : string;
  msg_Attachments : list Attachment
}.

(** The bytes of the bullet of a list line (U+2022 in UTF-8, then a
    space) and the line feed. *)
Definition bullet : string :=
  String "226"%char (String "128"%char (String "162"%char " ")).

Definition line_feed : string := String "010"%char EmptyString.

(** [fmt.Sprintf("• %s\n", repo)] *)
Definition bullet_line (repo : string) : string :=
  bullet ++ repo ++ line_feed.

(** The loop of lines 139-142: [failedReposText += ...] for each
    repository. *)
Definition failedReposText (repos : list string) : string :=
  fold_left (fun text repo => text ++ bullet_line repo) repos "".

(** [t.Unix()] for a time counted in nanoseconds. *)
Definition time_Unix (t : Z) : Z := t / 1000000000.

Section SlackMessage.

(** [Duration.String()] and [Time.Format(layout)] of the [time] package. *)
Variable Duration_String : Z -> string.
Variable Time_Format : Z -> string -> string.

(** [createSlackMessage] *)
Definition createSlackMessage (result : BackupResult) : SlackMessage :=
  let color := if Success result then "good" else "danger" in
  let emoji := if Success result then ":white_check_mark:" else ":x:" in
  let title := if Success result
               then "Git Backup Completed Successfully"
               else "Git Backup Failed" in
  let mainText :=
    if Success result
    then "All " ++ fmt_d (RepoCount result) ++ " repositories backed up successfully!"
    else "Backup completed with " ++ fmt_d (ErrorCount result)
         ++ " errors out of " ++ fmt_d (RepoCount result) ++ " repositories" in
  let fields :=
    [ {| field_Title := "Total Repositories";
         field_Value := fmt_d (RepoCount result);
         field_Short := true |};
      {| field_Title := "Errors";
         field_Value := fmt_d (ErrorCount result);
         field_Short := true |};
      {| field_Title := "Duration";
         field_Value := Duration_String (Duration result);
         field_Short := true |};
      {| field_Title := "Started";
         field_Value := Time_Format (StartTime result) "2006-01-02 15:04:05 MST";
         field_Short := true |} ] in
  let fields :=
    if (ErrorCount result >? 0) && (0 <? Z.of_nat (List.length (FailedRepos result)))
    then app fields
           [ {| field_Title := "Failed Repositories";
                field_Value := failedReposText (FailedRepos result);
                field_Short := false |} ]
    else fields in
  let attachment :=
    {| att_Color := color;
       att_Title := title;
       att_Text := mainText;
       att_Fields := fields;
       att_Footer := "Git Backup Service";
       att_Timestamp := time_Unix (EndTime result) |} in
  {| msg_Text := emoji ++ " " ++ title;
     msg_Username := "Git Backup Bot";
     msg_IconEmoji := ":robot_face:";
     msg_Channel := "";
     msg_Attachments := [attachment] |}.

End SlackMessage.
(* ===================================================================== *)
(** * Vocabulary of the properties *)

(** ** Histories *)

(** The answer to the newest fetch of a history. *)
Fixpoint last_fetch (h : list call) : option (option error) :=
  match h with
  | [] => None
  | RepoFetch _ _ res :: _ => Some res
  | _ :: older => last_fetch older
  end.

(** The options of the fetches of a history, in the order they were made. *)
Fixpoint fetches_newest_first (h : list call) : list FetchOptions :=
  match h with
  | [] => []
  | RepoFetch _ o _ :: older => o :: fetches_newest_first older
  | _ :: older => fetches_newest_first older
  end.

Definition fetches (h : list call) : list FetchOptions :=
  rev (fetches_newest_first h).

(** The summaries handed to the notifier, newest first. *)
Fixpoint summaries (h : list call) : list BackupResult :=
  match h with
  | [] => []
  | JsonMarshal b _ :: older => b :: summaries older
  | _ :: older => summaries older
  end.

(** A computation that hands no summary to the notifier. *)
Definition silent {A : Type} (c : M A) : Prop :=
  forall w, summaries (calls (snd (c w))) = summaries (calls w).

(** ** The interaction of [fetchAllRefs] with the remote *)

Section RefreshVocabulary.

Variable env : Env.
Variables (r : Repository) (g : repo) (auth : option BasicAuth).

(** The answers to the three fetches [fetchAllRefs] can make from a
    history [h], and the histories in between (newest entry first). *)
Definition branch_answer (h : list call) : option error :=
  repo_Fetch env h g (branch_fetch_options auth).

Definition after_branch (h : list call) : list call :=
  RuntimeGC :: RepoFetch g (branch_fetch_options auth) (branch_answer h) :: h.

Definition tag_answer (h : list call) : option error :=
  repo_Fetch env (after_branch h) g (tag_fetch_options auth).

Definition after_tag (h : list call) : list call :=
  RepoFetch g (tag_fetch_options auth) (tag_answer h) :: after_branch h.

Definition fallback_answer (h : list call) : option error :=
  repo_Fetch env (after_tag h) g (fallback_fetch_options auth).

Definition after_fallback (h : list call) : list call :=
  RepoFetch g (fallback_fetch_options auth) (fallback_answer h) :: after_tag h.

(** What [fetchAllRefs] returns, the calls and the log lines it leaves
    behind. *)
Definition refresh_answer (h : list call) : option error :=
  if fetch_failed (tag_answer h) then fallback_answer h else tag_answer h.

Definition after_refresh (h : list call) : list call :=
  if fetch_failed (tag_answer h) then after_fallback h else after_tag h.

Definition refresh_logs (h : list call) : list log_line :=
  (if fetch_failed (tag_answer h)
   then [Printf "Tag fetch failed for %s: %v" [ArgS (FullName r); ArgV (tag_answer h)]]
   else [])
  ++ [MemoryUsage ("After tag fetch for " ++ FullName r)]
  ++ (if fetch_failed (branch_answer h)
      then [Printf "Branch fetch failed for %s: %v"
              [ArgS (FullName r); ArgV (branch_answer h)]]
      else [])
  ++ [MemoryUsage ("After branch fetch for " ++ FullName r);
      MemoryUsage ("Before fetch for " ++ FullName r);
      Printf "Fetching all branches and tags for %s" [ArgS (FullName r)]].

End RefreshVocabulary.

(** The result of the final [switch] of [CloneInto] for the answer
    [final] of the ref refresh. *)
Definition classified (final : option error) : option error :=
  match final with
  | Some (Sentinel NoErrAlreadyUpToDate) => None
  | other => other
  end.

(** The log lines of [refresh_other_refs] after those of [fetchAllRefs]. *)
Definition classify_logs (r : Repository) (final : option error) : list log_line :=
  if err_eq final NoErrAlreadyUpToDate
  then [Printf "All refs up-to-date for %s" [ArgS (FullName r)]]
  else [].

(** The log lines of [CloneInto] up to the clone attempt. *)
Definition clone_logs (r : Repository) : list log_line :=
  [MemoryUsage ("After clone attempt for " ++ FullName r);
   Printf "Starting mirror clone for %s" [ArgS (FullName r)];
   MemoryUsage ("Starting clone for " ++ FullName r)].

(** ** Concrete environments *)

(** An environment in which every call succeeds: paths are free, clones
    and fetches bring new objects, the webhook answers 200. *)
Definition base_env : Env :=
  {| git_PlainClone := fun _ _ _ _ => (Some 1%nat, None);
     git_PlainOpen := fun _ _ => inl 1%nat;
     repo_Config := fun _ _ => inl true;
     repo_Worktree := fun _ _ => inl 1%nat;
     worktree_Pull := fun _ _ _ => None;
     repo_Fetch := fun _ _ _ => None;
     os_MkdirAll := fun _ _ => None;
     time_Now := fun h => Z.of_nat (List.length h);
     json_Marshal := fun _ _ => inl "{}";
     http_Post := fun _ _ _ => inl 200;
     filepath_Join := String.concat "/";
     os_Getenv := fun _ => "";
     gitbackup_LoadFile := fun _ => inl [];
     os_IsNotExist := fun _ => false;
     runtime_GOOS := "linux";
     runtime_GOARCH := "amd64" |}.

Definition with_clone
    (f : list call -> string -> bool -> CloneOptions -> option repo * option error)
    (e : Env) : Env :=
  {| git_PlainClone := f;
     git_PlainOpen := git_PlainOpen e;
     repo_Config := repo_Config e;
     repo_Worktree := repo_Worktree e;
     worktree_Pull := worktree_Pull e;
     repo_Fetch := repo_Fetch e;
     os_MkdirAll := os_MkdirAll e;
     time_Now := time_Now e;
     json_Marshal := json_Marshal e;
     http_Post := http_Post e;
     filepath_Join := filepath_Join e;
     os_Getenv := os_Getenv e;
     gitbackup_LoadFile := gitbackup_LoadFile e;
     os_IsNotExist := os_IsNotExist e;
     runtime_GOOS := runtime_GOOS e;
     runtime_GOARCH := runtime_GOARCH e |}.

Definition with_fetch (f : list call -> repo -> FetchOptions -> option error)
    (e : Env) : Env :=
  {| git_PlainClone := git_PlainClone e;
     git_PlainOpen := git_PlainOpen e;
     repo_Config := repo_Config e;
     repo_Worktree := repo_Worktree e;
     worktree_Pull := worktree_Pull e;
     repo_Fetch := f;
     os_MkdirAll := os_MkdirAll e;
     time_Now := time_Now e;
     json_Marshal := json_Marshal e;
     http_Post := http_Post e;
     filepath_Join := filepath_Join e;
     os_Getenv := os_Getenv e;
     gitbackup_LoadFile := gitbackup_LoadFile e;
     os_IsNotExist := os_IsNotExist e;
     runtime_GOOS := runtime_GOOS e;
     runtime_GOARCH := runtime_GOARCH e |}.

Definition with_mkdir (f : list call -> string -> option error) (e : Env) : Env :=
  {| git_PlainClone := git_PlainClone e;
     git_PlainOpen := git_PlainOpen e;
     repo_Config := repo_Config e;
     repo_Worktree := repo_Worktree e;
     worktree_Pull := worktree_Pull e;
     repo_Fetch := repo_Fetch e;
     os_MkdirAll := f;
     time_Now := time_Now e;
     json_Marshal := json_Marshal e;
     http_Post := http_Post e;
     filepath_Join := filepath_Join e;
     os_Getenv := os_Getenv e;
     gitbackup_LoadFile := gitbackup_LoadFile e;
     os_IsNotExist := os_IsNotExist e;
     runtime_GOOS := runtime_GOOS e;
     runtime_GOARCH := runtime_GOARCH e |}.

Definition with_post (f : list call -> string -> payload -> Z + error) (e : Env) : Env :=
  {| git_PlainClone := git_PlainClone e;
     git_PlainOpen := git_PlainOpen e;
     repo_Config := repo_Config e;
     repo_Worktree := repo_Worktree e;
     worktree_Pull := worktree_Pull e;
     repo_Fetch := repo_Fetch e;
     os_MkdirAll := os_MkdirAll e;
     time_Now := time_Now e;
     json_Marshal := json_Marshal e;
     http_Post := f;
     filepath_Join := filepath_Join e;
     os_Getenv := os_Getenv e;
     gitbackup_LoadFile := gitbackup_LoadFile e;
     os_IsNotExist := os_IsNotExist e;
     runtime_GOOS := runtime_GOOS e;
     runtime_GOARCH := runtime_GOARCH e |}.

Definition with_config (sources : list RepositorySource + error) (e : Env) : Env :=
  {| git_PlainClone := git_PlainClone e;
     git_PlainOpen := git_PlainOpen e;
     repo_Config := repo_Config e;
     repo_Worktree := repo_Worktree e;
     worktree_Pull := worktree_Pull e;
     repo_Fetch := repo_Fetch e;
     os_MkdirAll := os_MkdirAll e;
     time_Now := time_Now e;
     json_Marshal := json_Marshal e;
     http_Post := http_Post e;
     filepath_Join := filepath_Join e;
     os_Getenv := os_Getenv e;
     gitbackup_LoadFile := fun _ => sources;
     os_IsNotExist := os_IsNotExist e;
     runtime_GOOS := runtime_GOOS e;
     runtime_GOARCH := runtime_GOARCH e |}.

Definition repo_named (name : string) : Repository :=
  {| GitURL := {| Scheme := "https";
                  User := Some {| Username := "backup"; Password := Some "token" |};
                  Host := "git.example.org";
                  Path := "/" ++ name ++ ".git" |};
     FullName := name |}.

Definition sample_repo : Repository := repo_named "org/app".

Definition sample_auth : option BasicAuth :=
  Some {| auth_Username := "backup"; auth_Password := "token" |}.

(** A mirror that a previous run left at the path and that is up to date:
    the clone finds the repository, every fetch finds nothing new. *)
Definition existing_mirror_env : Env :=
  with_clone (fun _ _ _ _ => (None, Some (Sentinel ErrRepositoryAlreadyExists)))
    (with_fetch (fun _ _ _ => Some (Sentinel NoErrAlreadyUpToDate)) base_env).

(** A remote whose branch fetch breaks while its tags can be fetched. *)
Definition broken_branches_env : Env :=
  with_fetch
    (fun _ _ o =>
       match fetch_Tags o with
       | AllTags => None
       | _ => Some (ErrorString "unexpected EOF")
       end)
    base_env.

(** A remote without commits. *)
Definition empty_remote_env : Env :=
  with_clone (fun _ _ _ _ => (Some 1%nat, Some (Sentinel ErrEmptyRemoteRepository)))
    base_env.

(** ** The notifier *)

(** An HTTP status of the success class. *)
Definition is_2xx (status : Z) : bool := (200 <=? status) && (status <=? 299).

(** [SendSlackNotification] returned, and what it returned is an error. *)
Definition delivery_error (o : outcome (option error)) : bool :=
  match o with
  | Val (Some _) => true
  | _ => false
  end.

(** A webhook that accepts the message with 204 No Content. *)
Definition no_content_env : Env := with_post (fun _ _ _ => inl 204) base_env.

Definition sample_result : BackupResult :=
  {| RepoCount := 3;
     ErrorCount := 0;
     Duration := 1500;
     FailedRepos := [];
     StartTime := 0;
     EndTime := 1500;
     Success := true |}.

(** ** Runs of the orchestrator *)

(** A summary whose error count is the length of its failure list. *)
Definition counts_agree (b : BackupResult) : Prop :=
  ErrorCount b = Z.of_nat (List.length (FailedRepos b)).

(** The repositories all sources list. *)
Definition listed (sources : list RepositorySource) : list Repository :=
  flat_map (fun s => fst (ListRepositories s)) sources.

(** The directory of a repository (line 240). *)
Definition repo_path (env : Env) (fl : Flags) (sourceName : string)
    (r : Repository) : string :=
  filepath_Join env [targetPath fl; sourceName; FullName r].

(** The webhook URL [main] works with (lines 182-185). *)
Definition webhook_of (env : Env) (fl : Flags) : string :=
  if (slackWebhook fl =? "")%string
  then os_Getenv env "SLACK_WEBHOOK_URL"
  else slackWebhook fl.

Section Verdicts.

(** What happens to each repository of a run: the answer of the
    directory creation and the result of the sync. *)
Variables (dir_verdict sync_verdict : string -> Repository -> option error).

Definition dir_failed (sourceName : string) (r : Repository) : bool :=
  negb (is_nil (dir_verdict sourceName r)).

Definition repo_failed (sourceName : string) (r : Repository) : bool :=
  negb (is_nil (dir_verdict sourceName r))
  || negb (is_nil (sync_verdict sourceName r)).

(** The entry a repository leaves in [failedRepos]. *)
Definition failure_note (sourceName : string) (r : Repository) : list string :=
  match dir_verdict sourceName r with
  | Some _ => [FullName r ++ " (directory creation failed)"]
  | None =>
      match sync_verdict sourceName r with
      | Some e => [FullName r ++ " (" ++ Error e ++ ")"]
      | None => []
      end
  end.

(** The counters after a repository that does not end the run. *)
Definition tally_repo (sourceName : string) (t : Tally) (r : Repository) : Tally :=
  {| repoCount := if dir_failed sourceName r then repoCount t else incr (repoCount t);
     errors := if repo_failed sourceName r then incr (errors t) else errors t;
     failedRepos := app (failedRepos t) (failure_note sourceName r) |}.

Definition tally_source (t : Tally) (s : RepositorySource) : Tally :=
  fold_left (tally_repo (GetName s)) (fst (ListRepositories s)) t.

(** The environment and the verdicts agree on a repository: whatever
    happened before, creating its directory and syncing it give the
    verdicts. *)
Definition verdict_holds (env : Env) (fl : Flags) (sourceName : string)
    (r : Repository) : Prop :=
  (forall h, os_MkdirAll env h (repo_path env fl sourceName r)
             = dir_verdict sourceName r)
  /\ (forall w, fst (CloneInto env r (repo_path env fl sourceName r)
                       (bareClone fl) w)
                = Val (sync_verdict sourceName r)).

Definition verdicts_hold (env : Env) (fl : Flags)
    (sources : list RepositorySource) : Prop :=
  forall s r, In s sources -> In r (fst (ListRepositories s)) ->
    verdict_holds env fl (GetName s) r.

(** How the loop over the sources ends, from the counters [t]. *)
Fixpoint sources_outcome (fail_at_end : bool) (sources : list RepositorySource)
    (t : Tally) : outcome Tally :=
  match sources with
  | [] => Val t
  | s :: rest =>
      match Test s, ListRepositories s with
      | Some _, _ => Exit 110
      | None, (_, Some _) => Exit 100
      | None, (repos, None) =>
          if existsb (repo_failed (GetName s)) repos && negb fail_at_end
          then Exit 100
          else sources_outcome fail_at_end rest (tally_source t s)
      end
  end.

(** Why a run ends the way it does. *)
Inductive run_class : Type :=
| FullSuccess
| NoSources
| ConnectivityFailure
| ListingFailure
| RepositoryFailure.

Fixpoint class_from (fail_at_end : bool) (sources : list RepositorySource)
    (failed_before : bool) : run_class :=
  match sources with
  | [] => if failed_before then RepositoryFailure else FullSuccess
  | s :: rest =>
      match Test s, ListRepositories s with
      | Some _, _ => ConnectivityFailure
      | None, (_, Some _) => ListingFailure
      | None, (repos, None) =>
          let failed := existsb (repo_failed (GetName s)) repos in
          if failed && negb fail_at_end
          then RepositoryFailure
          else class_from fail_at_end rest (failed_before || failed)
      end
  end.

Definition class_of_run (fail_at_end : bool) (sources : list RepositorySource)
    : run_class :=
  match sources with
  | [] => NoSources
  | _ => class_from fail_at_end sources false
  end.

End Verdicts.

(** The exit status the code gives to each class of run. *)
Definition status_of_class (c : run_class) : Z :=
  match c with
  | FullSuccess => 0
  | NoSources => 111
  | ConnectivityFailure => 110
  | ListingFailure => 100
  | RepositoryFailure => 100
  end.

(** ** Concrete runs *)

Definition default_flags : Flags :=
  {| configFilePath := "git-backup.yml";
     targetPath := "backup";
     failAtEnd := false;
     bareClone := false;
     printVersion := false;
     enableInsecure := false;
     slackWebhook := "" |}.

(** [-backup.fail-at-end -slack.webhook=...] *)
Definition fail_at_end_flags : Flags :=
  {| configFilePath := "git-backup.yml";
     targetPath := "backup";
     failAtEnd := true;
     bareClone := false;
     printVersion := false;
     enableInsecure := false;
     slackWebhook := "https://hooks.example.org/T0" |}.

Definition network_error : error := ErrorString "connection reset by peer".

(** A source that cannot be reached, a source that cannot list its
    repositories, and a source with one repository. *)
Definition unreachable_source : RepositorySource :=
  {| GetName := "forge";
     Test := Some (ErrorString "401 Unauthorized");
     ListRepositories := ([], None) |}.

Definition unlistable_source : RepositorySource :=
  {| GetName := "forge";
     Test := None;
     ListRepositories := ([], Some (ErrorString "502 Bad Gateway")) |}.

Definition one_repo_source : RepositorySource :=
  {| GetName := "forge";
     Test := None;
     ListRepositories := ([repo_named "org/broken"], None) |}.

Definition connectivity_failure_env : Env :=
  with_config (inl [unreachable_source]) base_env.

Definition listing_failure_env : Env :=
  with_config (inl [unlistable_source]) base_env.

(** The clone of the only repository breaks off. *)
Definition sync_failure_env : Env :=
  with_config (inl [one_repo_source])
    (with_clone (fun _ _ _ _ => (None, Some network_error)) base_env).

(** ** Counting over a run *)

Section Counts.

Variables (dir_verdict sync_verdict : string -> Repository -> option error).

(** The repositories that failed, the repositories whose directory could
    not be created, the repositories whose sync was attempted, and the
    failure notes, over all sources. *)
Definition failed_repos (sources : list RepositorySource) : list Repository :=
  flat_map (fun s => filter (repo_failed dir_verdict sync_verdict (GetName s))
                       (fst (ListRepositories s))) sources.

Definition dir_failed_repos (sources : list RepositorySource) : list Repository :=
  flat_map (fun s => filter (dir_failed dir_verdict (GetName s))
                       (fst (ListRepositories s))) sources.

Definition synced_repos (sources : list RepositorySource) : list Repository :=
  flat_map (fun s => filter (fun r => negb (dir_failed dir_verdict (GetName s) r))
                       (fst (ListRepositories s))) sources.

Definition failure_notes (sources : list RepositorySource) : list string :=
  flat_map (fun s => flat_map (failure_note dir_verdict sync_verdict (GetName s))
                       (fst (ListRepositories s))) sources.

End Counts.

(** Every source passes its connectivity test and lists its
    repositories. *)
Definition sources_healthy (sources : list RepositorySource) : Prop :=
  forall s, In s sources -> Test s = None /\ snd (ListRepositories s) = None.

(** The summary [finish] hands to the notifier. *)
Definition final_summary (env : Env) (start : Z) (t : Tally) (h : list call)
    : BackupResult :=
  {| RepoCount := repoCount t;
     ErrorCount := errors t;
     Duration := time_Sub (time_Now env h) start;
     FailedRepos := failedRepos t;
     StartTime := start;
     EndTime := time_Now env h;
     Success := errors t =? 0 |}.

Definition Repository_eq_dec (a b : Repository) : {a = b} + {a <> b}.
Proof.
  repeat decide equality; apply string_dec.
Defined.

(** A source with an empty repository, a repository whose clone breaks
    off, and a repository that syncs. *)
Definition three_repo_source : RepositorySource :=
  {| GetName := "forge";
     Test := None;
     ListRepositories :=
       ([repo_named "org/empty"; repo_named "org/broken"; repo_named "org/app"],
        None) |}.

Definition three_repo_env : Env :=
  with_config (inl [three_repo_source])
    (with_clone
       (fun _ _ _ o =>
          if (Path (clone_URL o) =? "/org/empty.git")%string
          then (Some 1%nat, Some (Sentinel ErrEmptyRemoteRepository))
          else if (Path (clone_URL o) =? "/org/broken.git")%string
               then (None, Some network_error)
               else (Some 1%nat, None))
       base_env).

(** A source with a repository whose directory cannot be created,
    followed by a repository that syncs. *)
Definition two_repo_source : RepositorySource :=
  {| GetName := "forge";
     Test := None;
     ListRepositories := ([repo_named "org/locked"; repo_named "org/app"], None) |}.

Definition dir_failure_env : Env :=
  with_config (inl [two_repo_source])
    (with_mkdir
       (fun _ p =>
          if (p =? "backup/forge/org/locked")%string
          then Some (ErrorString "permission denied")
          else None)
       base_env).

(** ** The invariant of the summaries *)

(** Every summary handed to the notifier so far has an error count equal
    to the length of its failure list. *)
Definition all_agree (w : World) : Prop :=
  Forall counts_agree (summaries (calls w)).

Definition tally_agrees (t : Tally) : Prop :=
  errors t = Z.of_nat (List.length (failedRepos t)).

(** [c] keeps the invariant, and a value it returns satisfies [Q]. *)
Definition keeps {A : Type} (c : M A) (Q : A -> Prop) : Prop :=
  forall w, all_agree w ->
    all_agree (snd (c w)) /\ (forall a, fst (c w) = Val a -> Q a).

(** ** Two runs in a row *)


(** The webhook flags of a fail-fast run. *)
Definition webhook_flags : Flags :=
  {| configFilePath := "git-backup.yml";
     targetPath := "backup";
     failAtEnd := false;
     bareClone := false;
     printVersion := false;
     enableInsecure := false;
     slackWebhook := "https://hooks.example.org/T0" |}.



(* ===================================================================== *)
(** * Vocabulary of the further properties *)

(** ** The calls a computation makes *)

(** Whatever the world, [c] adds to the history only calls that satisfy
    [C]. *)
Definition makes_only {A : Type} (C : call -> Prop) (c : M A) : Prop :=
  forall w, exists new, calls (snd (c w)) = (new ++ calls w)%list /\ Forall C new.

(** The calls [CloneInto] may make for a repository at a path: the
    mirror clone with the URL's credentials, opening the path, reading
    the configuration and the work tree, pulls and forced fetches with
    the same credentials, and collections of garbage. *)
Definition sync_call (r : Repository) (path : string) (bare : bool) (c : call)
    : Prop :=
  match c with
  | PlainClone p b o _ => p = path /\ b = bare /\ o = clone_options r
  | PlainOpen p _ => p = path
  | RepoConfig _ _ => True
  | RepoWorktree _ _ => True
  | WorktreePull _ o _ => pull_Auth o = url_auth (GitURL r)
  | RepoFetch _ o _ =>
      fetch_Auth o = url_auth (GitURL r) /\ fetch_Force o = true
  | RuntimeGC => True
  | MkdirAll _ _ => False
  | TimeNow _ => False
  | JsonMarshal _ _ => False
  | HttpPost _ _ _ => False
  end.

(** A call that is not part of a notification. *)
Definition not_notifier_call (c : call) : Prop :=
  match c with
  | JsonMarshal _ _ => False
  | HttpPost _ _ _ => False
  | _ => True
  end.

(** What one call of [SendSlackNotification] for [b] to [url] may add to
    the history (newest first), with the error it then returns: nothing
    when no URL is configured, the failed marshalling alone, or the
    marshalling followed by a single POST of the marshalled body to
    [url]. *)
Definition notification_trace (url : string) (b : BackupResult)
    (new : list call) (err : option error) : Prop :=
  match new with
  | [] =>
      url = "" /\ err = Some (ErrorString "Slack webhook URL is not configured")
  | [JsonMarshal b' (inr e)] =>
      url <> "" /\ b' = b
      /\ err = Some (ErrorString ("failed to marshal Slack message: " ++ Error e))
  | [HttpPost u body (inr e); JsonMarshal b' (inl body')] =>
      url <> "" /\ b' = b /\ u = url /\ body = body'
      /\ err = Some (ErrorString ("failed to send Slack notification: " ++ Error e))
  | [HttpPost u body (inl status); JsonMarshal b' (inl body')] =>
      url <> "" /\ b' = b /\ u = url /\ body = body'
      /\ err = (if status =? 200
                then None
                else Some (ErrorString
                             ("Slack API returned status code: " ++ fmt_d status)))
  | _ => False
  end.

(** ** The ways a computation ends *)

(** Whenever [c] ends the process with [os.Exit], the status is in [S]. *)
Definition exits_within {A : Type} (S : Z -> Prop) (c : M A) : Prop :=
  forall w code, fst (c w) = Exit code -> S code.

(** The statuses [main] passes to [os.Exit]. *)
Definition main_status (code : Z) : Prop :=
  code = 0 \/ code = 1 \/ code = 100 \/ code = 110 \/ code = 111.

(** The log lines of [main] for [-version]. *)
Definition version_logs (env : Env) (fl : Flags) : list log_line :=
  [Printf "Built %s (%s)" [ArgS CommitHash; ArgS BuildTimestamp];
   Printf "git-backup, version %s (%s-%s)"
     [ArgS Version; ArgS (runtime_GOOS env); ArgS (runtime_GOARCH env)];
   Printf "inscure: %v" [ArgB (enableInsecure fl)]].

(** ** Summaries along a run *)

(** From a history whose summaries satisfy [P], [c] either returns a
    value [a] with summaries in [Q a], or ends the process, by
    [os.Exit code] ([Some code]) or by a panic ([None]), with summaries
    in [X]. *)
Definition run_spec {A : Type} (P : list BackupResult -> Prop) (c : M A)
    (Q : A -> list BackupResult -> Prop)
    (X : option Z -> list BackupResult -> Prop) : Prop :=
  forall w, P (summaries (calls w)) ->
    match c w with
    | (Val a, w') => Q a (summaries (calls w'))
    | (Exit code, w') => X (Some code) (summaries (calls w'))
    | (Panic, w') => X None (summaries (calls w'))
    end.

(** The number of summaries a run hands over before the process ends
    with [os.Exit] after the first source was reached. *)
Definition summaries_due (url : string) : nat :=
  if (url =? "")%string then 0%nat else 1%nat.

(** A run that was ended by a panic has handed over nothing; a run ended
    by [os.Exit] has handed over one summary if there is a webhook. *)
Definition ended_with (url : string) (code : option Z) (l : list BackupResult)
    : Prop :=
  match code with
  | None => l = []
  | Some _ => List.length l = summaries_due url
  end.

(** ** The shape of a summary *)

(** The summary of a run that stopped at its first failure, or of a run
    without failure. *)
Definition fail_fast_shape (b : BackupResult) : Prop :=
  (Success b = false /\ ErrorCount b = 1 /\ List.length (FailedRepos b) = 1%nat)
  \/ (Success b = true /\ ErrorCount b = 0 /\ FailedRepos b = []).

(** The success flag says that nothing failed: the error count is zero
    and it is the length of the failure list. *)
Definition flag_agrees (b : BackupResult) : Prop :=
  counts_agree b /\ Success b = (ErrorCount b =? 0).

(** The summary [notify_and_exit] builds. *)
Definition fatal_summary (start count errs : Z) (failed : list string)
    (now1 now2 : Z) : BackupResult :=
  {| RepoCount := count;
     ErrorCount := errs;
     Duration := time_Sub now1 start;
     FailedRepos := failed;
     StartTime := start;
     EndTime := now2;
     Success := false |}.

(** ** Paths through [CloneInto] *)

(** A call on a work tree. *)
Definition not_worktree_call (c : call) : Prop :=
  match c with
  | RepoWorktree _ _ => False
  | WorktreePull _ _ _ => False
  | _ => True
  end.

(** A work tree with local changes: the existing repository opens and is
    not bare, and the pull is refused. *)
Definition dirty_worktree_env : Env :=
  {| git_PlainClone :=
       fun _ _ _ _ => (None, Some (Sentinel ErrRepositoryAlreadyExists));
     git_PlainOpen := fun _ _ => inl 1%nat;
     repo_Config := fun _ _ => inl false;
     repo_Worktree := fun _ _ => inl 7%nat;
     worktree_Pull := fun _ _ _ => Some (ErrorString "worktree contains unstaged changes");
     repo_Fetch := repo_Fetch base_env;
     os_MkdirAll := os_MkdirAll base_env;
     time_Now := time_Now base_env;
     json_Marshal := json_Marshal base_env;
     http_Post := http_Post base_env;
     filepath_Join := filepath_Join base_env;
     os_Getenv := os_Getenv base_env;
     gitbackup_LoadFile := gitbackup_LoadFile base_env;
     os_IsNotExist := os_IsNotExist base_env;
     runtime_GOOS := runtime_GOOS base_env;
     runtime_GOARCH := runtime_GOARCH base_env |}.

(** A path that holds something that is not a repository: the clone
    finds it taken and opening it fails. *)
Definition broken_directory_env : Env :=
  {| git_PlainClone :=
       fun _ _ _ _ => (None, Some (Sentinel ErrRepositoryAlreadyExists));
     git_PlainOpen := fun _ _ => inr (ErrorString "repository does not exist");
     repo_Config := repo_Config base_env;
     repo_Worktree := repo_Worktree base_env;
     worktree_Pull := worktree_Pull base_env;
     repo_Fetch := repo_Fetch base_env;
     os_MkdirAll := os_MkdirAll base_env;
     time_Now := time_Now base_env;
     json_Marshal := json_Marshal base_env;
     http_Post := http_Post base_env;
     filepath_Join := filepath_Join base_env;
     os_Getenv := os_Getenv base_env;
     gitbackup_LoadFile := gitbackup_LoadFile base_env;
     os_IsNotExist := os_IsNotExist base_env;
     runtime_GOOS := runtime_GOOS base_env;
     runtime_GOARCH := runtime_GOARCH base_env |}.

(** ** The calls of the orchestrator *)

(** A call made for a notification: reading the clock, marshalling a
    summary, posting to [url]. *)
Definition report_call (url : string) (c : call) : Prop :=
  match c with
  | TimeNow _ => True
  | JsonMarshal _ _ => True
  | HttpPost u _ _ => u = url
  | _ => False
  end.

(** A call that is no [http.Post], or a [http.Post] to [url]. *)
Definition orchestrator_call (url : string) (c : call) : Prop :=
  match c with
  | HttpPost u _ _ => u = url
  | _ => True
  end.

(** ** The message of a summary *)

(** The titles of the four fields every message has. *)
Definition fixed_titles : list string :=
  ["Total Repositories"; "Errors"; "Duration"; "Started"].

(** The lines of a list of repositories, one after the other. *)
Definition bullet_lines (repos : list string) : string :=
  fold_right (fun repo rest => bullet_line repo ++ rest) "" repos.

(** What the attachment of the message of a summary [b] looks like: for
    a success the colour "good" and the four fixed fields; for a failure
    the colour "danger" and, after the four fixed fields, the field that
    lists the failed repositories. *)
Definition attachment_for (b : BackupResult) (a : Attachment) : Prop :=
  if Success b
  then att_Color a = "good"
       /\ att_Title a = "Git Backup Completed Successfully"
       /\ map field_Title (att_Fields a) = fixed_titles
  else att_Color a = "danger"
       /\ att_Title a = "Git Backup Failed"
       /\ map field_Title (att_Fields a) = (fixed_titles ++ ["Failed Repositories"])%list
       /\ option_map field_Value (nth_error (att_Fields a) 4)
          = Some (bullet_lines (FailedRepos b)).

(** ** Source failures and the end of a run *)

(** The failure description of a source that failed its connectivity
    test, and of one that failed to list its repositories. *)
Definition connection_note (s : RepositorySource) (e : error) : string :=
  "Connection failed to " ++ GetName s ++ ": " ++ Error e.

Definition communication_note (s : RepositorySource) (e : error) : string :=
  "Communication error with " ++ GetName s ++ ": " ++ Error e.

(** The line [finish] writes to the log before it notifies. *)
Definition summary_line (env : Env) (start : Z) (t : Tally) (h : list call)
    : log_line :=
  Printf "Backed up %d repositories in %s, encountered %d errors"
    [ArgD (repoCount t); ArgDur (time_Sub (time_Now env h) start);
     ArgD (errors t)].
(* ===================================================================== *)
(** * Properties *)

Local Open Scope list_scope.

#[local] Arguments String.append : simpl never.
#[local] Arguments incr : simpl never.
#[local] Arguments time_Sub : simpl never.
#[local] Arguments fmt_d : simpl never.

(** ** Errors *)

Lemma sentinel_eqb_eq (a b : sentinel) : sentinel_eqb a b = true <-> a = b.
Proof. destruct a, b; cbn; split; congruence. Qed.

(** An error chain ends in at most one sentinel. *)
Lemma Is_functional (e : error) (s s' : sentinel) :
  Is e s = true -> Is e s' = true -> s = s'.
Proof.
  induction e as [s0 | msg | msg cause IH]; cbn; intros H H'.
  - apply sentinel_eqb_eq in H, H'. congruence.
  - discriminate.
  - auto.
Qed.

Lemma errors_Is_other (err : option error) (s s' : sentinel) :
  errors_Is err s = true -> s <> s' -> errors_Is err s' = false.
Proof.
  destruct err as [e |]; cbn; [| discriminate].
  intros H Hne. destruct (Is e s') eqn:H'; [| reflexivity].
  exfalso. apply Hne. eapply Is_functional; eassumption.
Qed.

Lemma err_eq_errors_Is (err : option error) (s : sentinel) :
  err_eq err s = true -> errors_Is err s = true.
Proof. destruct err as [[s0 | msg | msg c] |]; cbn; congruence. Qed.

Lemma err_eq_true (err : option error) (s : sentinel) :
  err_eq err s = true <-> err = Some (Sentinel s).
Proof.
  destruct err as [[s0 | msg | msg c] |]; cbn; try (split; congruence).
  rewrite sentinel_eqb_eq. split; congruence.
Qed.

(** ** The ref refresh *)

Lemma fetchAllRefs_run env r g auth (w : World) :
  fetchAllRefs env r (Some g) auth w =
  (Val (refresh_answer env g auth (calls w)),
   {| calls := after_refresh env g auth (calls w);
      logs := refresh_logs env r g auth (calls w) ++ logs w |}).
Proof.
  unfold fetchAllRefs, refresh_answer, after_refresh, refresh_logs, bind.
  cbn.
  fold (branch_answer env g auth (calls w)).
  destruct (fetch_failed (branch_answer env g auth (calls w))) eqn:Hb; cbn;
    fold (after_branch env g auth (calls w));
    fold (tag_answer env g auth (calls w));
    destruct (fetch_failed (tag_answer env g auth (calls w))) eqn:Ht; cbn;
    reflexivity.
Qed.

Lemma last_fetch_after_refresh env g auth h :
  last_fetch (after_refresh env g auth h) = Some (refresh_answer env g auth h).
Proof.
  unfold after_refresh, refresh_answer.
  destruct (fetch_failed (tag_answer env g auth h)); reflexivity.
Qed.

(** ** [CloneInto] *)

Lemma classify_refresh_run r (final : option error) (w : World) :
  classify_refresh r final w =
  (Val (classified final),
   {| calls := calls w; logs := classify_logs r final ++ logs w |}).
Proof.
  unfold classify_refresh, classified, classify_logs.
  destruct final as [[[| |] | msg | msg c] |]; cbn; try reflexivity;
    destruct w; reflexivity.
Qed.

Lemma refresh_other_refs_run env r (g : repo) (w : World) :
  let auth := url_auth (GitURL r) in
  let final := refresh_answer env g auth (calls w) in
  refresh_other_refs env r (Some g) w =
  (Val (classified final),
   {| calls := RuntimeGC :: after_refresh env g auth (calls w);
      logs := classify_logs r final
              ++ MemoryUsage ("After fetch for " ++ FullName r)
              :: refresh_logs env r g auth (calls w)
              ++ Printf "Fetching all branches and tags for %s" [ArgS (FullName r)]
              :: logs w |}).
Proof.
  intros auth final. unfold refresh_other_refs, bind at 1 2.
  cbn [log_Printf]. rewrite fetchAllRefs_run. cbn [calls logs].
  unfold forceGC, bind, runtime_GC, logMemoryUsage, record. cbn [calls logs].
  rewrite classify_refresh_run. reflexivity.
Qed.

(** C6: whatever the branch fetch answers, [fetchAllRefs] goes on to the
    tag fetch, and what it returns is the answer of the tag fetch or, if
    that one failed, of the fallback tag fetch.  The answer of the branch
    fetch is kept in the history and, if it is a failure, in one log
    line, and nowhere else. *)
Theorem fetchAllRefs_branch_failure_only_logged
    env r g auth (w : World) :
  let h := calls w in
  let branch := RepoFetch g (branch_fetch_options auth) (branch_answer env g auth h) in
  let tag := RepoFetch g (tag_fetch_options auth) (tag_answer env g auth h) in
  let fallback :=
    RepoFetch g (fallback_fetch_options auth) (fallback_answer env g auth h) in
  exists w',
    fetchAllRefs env r (Some g) auth w =
      (Val (if fetch_failed (tag_answer env g auth h)
            then fallback_answer env g auth h
            else tag_answer env g auth h), w')
    /\ calls w' =
         (if fetch_failed (tag_answer env g auth h) then [fallback] else [])
         ++ tag :: RuntimeGC :: branch :: h
    /\ logs w' = refresh_logs env r g auth h ++ logs w
    /\ (if fetch_failed (branch_answer env g auth h)
        then In (Printf "Branch fetch failed for %s: %v"
                   [ArgS (FullName r); ArgV (branch_answer env g auth h)])
               (logs w')
        else True).
Proof.
  intros h branch tag fallback. subst h branch tag fallback.
  rewrite fetchAllRefs_run.
  eexists. split; [reflexivity |]. cbn [calls logs]. split; [| split].
  - unfold after_refresh, after_fallback, after_tag, after_branch.
    destruct (fetch_failed (tag_answer env g auth (calls w))); reflexivity.
  - reflexivity.
  - destruct (fetch_failed (branch_answer env g auth (calls w))) eqn:Hb; [| exact I].
    apply in_or_app. left. unfold refresh_logs. rewrite Hb.
    apply in_or_app. right. right. left. reflexivity.
Qed.

(** The overall operation can succeed although the branch fetch failed. *)
Example branch_failure_then_success :
  fst (CloneInto broken_branches_env sample_repo "backup/src/org/app" false init_world)
  = Val None.
Proof. reflexivity. Qed.

Lemma CloneInto_empty_run env r path bare (w : World) :
  errors_Is (snd (git_PlainClone env (calls w) path bare (clone_options r)))
    ErrEmptyRemoteRepository = true ->
  CloneInto env r path bare w =
  (Val None,
   {| calls := PlainClone path bare (clone_options r)
                 (git_PlainClone env (calls w) path bare (clone_options r))
               :: calls w;
      logs := Printf "%s is an empty repository" [ArgS (FullName r)]
              :: clone_logs r ++ logs w |}).
Proof.
  intros Hempty.
  assert (Hexists :
    errors_Is (snd (git_PlainClone env (calls w) path bare (clone_options r)))
      ErrRepositoryAlreadyExists = false)
    by (eapply errors_Is_other; [exact Hempty | discriminate]).
  unfold CloneInto, clone_or_update, bind. cbn.
  destruct (git_PlainClone env (calls w) path bare (clone_options r))
    as [gitRepo err].
  cbn in Hempty, Hexists. rewrite Hexists. cbn.
  unfold after_clone. rewrite Hempty. reflexivity.
Qed.

(** C3: when the clone fails with the empty-repository signal,
    [CloneInto] returns nil right after the clone attempt: nothing is
    fetched and the only line added to the log says that the repository
    is empty. *)
Theorem CloneInto_empty_remote_succeeds env r path bare (w : World) :
  errors_Is (snd (git_PlainClone env (calls w) path bare (clone_options r)))
    ErrEmptyRemoteRepository = true ->
  CloneInto env r path bare w =
  (Val None,
   {| calls := PlainClone path bare (clone_options r)
                 (git_PlainClone env (calls w) path bare (clone_options r))
               :: calls w;
      logs := Printf "%s is an empty repository" [ArgS (FullName r)]
              :: clone_logs r ++ logs w |}).
Proof. exact (CloneInto_empty_run env r path bare w). Qed.

Lemma CloneInto_empty_remote_witness :
  CloneInto empty_remote_env sample_repo "backup/src/org/app" true init_world
  = (Val None,
     {| calls := [PlainClone "backup/src/org/app" true (clone_options sample_repo)
                    (Some 1%nat, Some (Sentinel ErrEmptyRemoteRepository))];
        logs := Printf "%s is an empty repository" [ArgS "org/app"]
                :: clone_logs sample_repo |}).
Proof.
  exact (CloneInto_empty_remote_succeeds empty_remote_env sample_repo
           "backup/src/org/app" true init_world eq_refl).
Defined.

Lemma classified_not_failed (final : option error) :
  fetch_failed final = false -> classified final = None.
Proof.
  destruct final as [[[| |] | msg | msg c] |]; cbn; congruence.
Qed.

(** A clone that fails with an error that is none of the sentinels. *)
Lemma CloneInto_clone_error env r path bare (w : World) (e : error) :
  snd (git_PlainClone env (calls w) path bare (clone_options r)) = Some e ->
  (forall s, Is e s = false) ->
  fst (CloneInto env r path bare w) = Val (Some e).
Proof.
  intros Hclone Hplain.
  unfold CloneInto, clone_or_update, bind. cbn.
  destruct (git_PlainClone env (calls w) path bare (clone_options r))
    as [gitRepo err].
  cbn in Hclone. subst err. cbn. rewrite Hplain. cbn.
  unfold after_clone. cbn. rewrite !Hplain. reflexivity.
Qed.

(** A clone that succeeds, followed by fetches that do not fail. *)
Lemma CloneInto_fresh_clone env r path bare (w : World) (g : repo) :
  git_PlainClone env (calls w) path bare (clone_options r) = (Some g, None) ->
  (forall h o, fetch_failed (repo_Fetch env h g o) = false) ->
  fst (CloneInto env r path bare w) = Val None.
Proof.
  intros Hclone Hfetch.
  unfold CloneInto, clone_or_update, bind, PlainClone_, logMemoryUsage,
    log_Printf, ret.
  cbn [calls logs]. rewrite Hclone. cbn [errors_Is].
  unfold after_clone. cbn [errors_Is is_nil].
  rewrite refresh_other_refs_run. cbn [fst].
  rewrite classified_not_failed; [reflexivity |].
  unfold refresh_answer, tag_answer.
  rewrite Hfetch. apply Hfetch.
Qed.

(** With a nil repository the ref refresh panics at its first fetch. *)
Lemma refresh_other_refs_nil_panics env r (w : World) :
  fst (refresh_other_refs env r None w) = Panic.
Proof. reflexivity. Qed.

(** C4: when the clone, the pull or the update of an existing mirror
    leaves a repository and no error other than already-up-to-date,
    [CloneInto] runs the ref refresh, and the answer [final] of the last
    fetch made decides: already-up-to-date and nil give nil (the former
    after logging that all refs are up to date), any other error is
    returned as it is. *)
Theorem CloneInto_final_fetch_decides env r path bare (w w1 : World) g err :
  clone_or_update env r path bare w = (Val (Some g, err), w1) ->
  is_nil err || errors_Is err NoErrAlreadyUpToDate = true ->
  exists final w',
    CloneInto env r path bare w =
      (Val match final with
           | Some (Sentinel NoErrAlreadyUpToDate) => None
           | None => None
           | Some e => Some e
           end, w')
    /\ last_fetch (calls w') = Some final
    /\ hd_error (logs w') =
         Some (if err_eq final NoErrAlreadyUpToDate
               then Printf "All refs up-to-date for %s" [ArgS (FullName r)]
               else MemoryUsage ("After fetch for " ++ FullName r)).
Proof.
  intros Hfirst Hok.
  exists (refresh_answer env g (url_auth (GitURL r))
            (calls (if errors_Is err NoErrAlreadyUpToDate
                    then snd (log_Printf "No need to pull, %s is already up-to-date"
                                [ArgS (FullName r)] w1)
                    else w1))).
  unfold CloneInto, bind at 1. rewrite Hfirst. unfold after_clone.
  assert (Hne : errors_Is err ErrEmptyRemoteRepository = false).
  { destruct err as [e |]; [| reflexivity]. cbn in Hok.
    eapply errors_Is_other; [exact Hok | discriminate]. }
  rewrite Hne.
  destruct (errors_Is err NoErrAlreadyUpToDate) eqn:Hup.
  - unfold bind. cbn [log_Printf]. rewrite refresh_other_refs_run.
    cbn [calls logs snd]. eexists. split; [| split].
    + f_equal. f_equal. unfold classified.
      destruct (refresh_answer _ _ _ _) as [[[| |] | |] |]; reflexivity.
    + cbn [calls last_fetch]. apply last_fetch_after_refresh.
    + cbn [logs]. unfold classify_logs.
      destruct (err_eq _ _); reflexivity.
  - rewrite orb_false_r in Hok. rewrite Hok. rewrite refresh_other_refs_run.
    eexists. split; [| split].
    + f_equal. f_equal. unfold classified.
      destruct (refresh_answer _ _ _ _) as [[[| |] | |] |]; reflexivity.
    + cbn [calls last_fetch]. apply last_fetch_after_refresh.
    + cbn [logs]. unfold classify_logs.
      destruct (err_eq _ _); reflexivity.
Qed.

(** C5, on an existing bare mirror that is up to date: the update of the
    existing repository fetches branches and tags, and the ref refresh
    that follows fetches them again, four fetches in all. *)
Theorem CloneInto_existing_mirror_fetches_twice :
  let run := CloneInto existing_mirror_env sample_repo "backup/src/org/app" true
               init_world in
  fst run = Val None
  /\ fetches (calls (snd run)) =
       [branch_fetch_options sample_auth; tag_fetch_options sample_auth;
        branch_fetch_options sample_auth; tag_fetch_options sample_auth].
Proof. split; reflexivity. Qed.

(** ** The notifier *)

(** C10 as stated fails: a response with the success status 204 makes
    [SendSlackNotification] return an error. *)
Lemma SendSlackNotification_rejects_204 :
  let run := SendSlackNotification no_content_env "https://hooks.example.org/T0"
               sample_result init_world in
  calls (snd run) =
    [HttpPost "https://hooks.example.org/T0" "{}" (inl 204);
     JsonMarshal sample_result (inl "{}")]
  /\ is_2xx 204 = true
  /\ fst run = Val (Some (ErrorString "Slack API returned status code: 204"))
  /\ ~ (delivery_error (fst run) = true <-> is_2xx 204 = false).
Proof.
  cbv zeta. repeat split; try reflexivity.
  intros [Hto _]. specialize (Hto eq_refl). discriminate Hto.
Qed.

(** C10, amended: with a webhook URL, a message that marshals and a POST
    that completes with status [status], [SendSlackNotification] returns
    an error exactly when [status] is not 200, and nil when it is 200. *)
Theorem SendSlackNotification_error_iff_not_200
    env url result (w : World) body status :
  url <> "" ->
  json_Marshal env (calls w) result = inl body ->
  http_Post env (JsonMarshal result (inl body) :: calls w) url body = inl status ->
  fst (SendSlackNotification env url result w) =
    Val (if status =? 200
         then None
         else Some (ErrorString ("Slack API returned status code: " ++ fmt_d status)))
  /\ (delivery_error (fst (SendSlackNotification env url result w)) = true
      <-> status <> 200).
Proof.
  intros Hurl Hmarshal Hpost.
  assert (Hrun : fst (SendSlackNotification env url result w) =
    Val (if status =? 200
         then None
         else Some (ErrorString ("Slack API returned status code: " ++ fmt_d status)))).
  { unfold SendSlackNotification.
    destruct (String.eqb_spec url "") as [Heq | _]; [contradiction |].
    unfold bind, Marshal_, Post_. cbn. rewrite Hmarshal. cbn. rewrite Hpost.
    unfold StatusOK. destruct (status =? 200); reflexivity. }
  split; [exact Hrun |]. rewrite Hrun.
  destruct (Z.eqb_spec status 200) as [Heq | Hne]; cbn.
  - split; [discriminate | intros H; contradiction].
  - split; [intros _; exact Hne | reflexivity].
Qed.

Lemma SendSlackNotification_error_iff_not_200_witness :
  fst (SendSlackNotification no_content_env "https://hooks.example.org/T0"
         sample_result init_world) =
    Val (Some (ErrorString "Slack API returned status code: 204"))
  /\ fst (SendSlackNotification base_env "https://hooks.example.org/T0"
            sample_result init_world) = Val None.
Proof.
  split.
  - apply (SendSlackNotification_error_iff_not_200 no_content_env
             "https://hooks.example.org/T0" sample_result init_world "{}" 204);
      [discriminate | reflexivity | reflexivity].
  - apply (SendSlackNotification_error_iff_not_200 base_env
             "https://hooks.example.org/T0" sample_result init_world "{}" 200);
      [discriminate | reflexivity | reflexivity].
Defined.

(** ** What the sync engine and the notifier leave in the history *)

Lemma silent_ret {A : Type} (a : A) : silent (ret a).
Proof. intros w. reflexivity. Qed.

Lemma silent_bind {A B : Type} (c : M A) (k : A -> M B) :
  silent c -> (forall a, silent (k a)) -> silent (bind c k).
Proof.
  intros Hc Hk w. unfold bind. specialize (Hc w).
  destruct (c w) as [[a | code |] w1]; cbn in *; try assumption.
  rewrite Hk. assumption.
Qed.

Lemma silent_panic {A : Type} : silent (@panic A).
Proof. intros w. reflexivity. Qed.

Lemma silent_log format args : silent (log_Printf format args).
Proof. intros w. reflexivity. Qed.

Lemma silent_logMemoryUsage operation : silent (logMemoryUsage operation).
Proof. intros w. reflexivity. Qed.

Lemma silent_runtime_GC : silent runtime_GC.
Proof. intros w. reflexivity. Qed.

Lemma silent_Fetch env gitRepo o : silent (Fetch_ env gitRepo o).
Proof. destruct gitRepo; intros w; reflexivity. Qed.

Lemma silent_PlainClone env path b o : silent (PlainClone_ env path b o).
Proof. intros w. reflexivity. Qed.

Lemma silent_PlainOpen env path : silent (PlainOpen_ env path).
Proof. intros w. reflexivity. Qed.

Lemma silent_Config env g : silent (Config_ env g).
Proof. intros w. reflexivity. Qed.

Lemma silent_Worktree env g : silent (Worktree_ env g).
Proof. intros w. reflexivity. Qed.

Lemma silent_Pull env wt o : silent (Pull_ env wt o).
Proof. intros w. reflexivity. Qed.

Lemma silent_MkdirAll env path : silent (MkdirAll_ env path).
Proof. intros w. reflexivity. Qed.

Create HintDb silent.
#[local] Hint Resolve silent_ret silent_panic silent_log silent_logMemoryUsage
  silent_runtime_GC silent_Fetch silent_PlainClone silent_PlainOpen
  silent_Config silent_Worktree silent_Pull silent_MkdirAll : silent.

Ltac silent_step :=
  match goal with
  | |- silent (bind _ _) => apply silent_bind; [| intros ?]
  | |- silent (if ?b then _ else _) => destruct b
  | |- silent (match ?x with _ => _ end) => destruct x
  | |- silent _ => solve [auto with silent]
  end.

Lemma silent_fetchAllRefs env r gitRepo auth :
  silent (fetchAllRefs env r gitRepo auth).
Proof. unfold fetchAllRefs. repeat silent_step. Qed.

#[local] Hint Resolve silent_fetchAllRefs : silent.

Lemma silent_CloneInto env r path bare : silent (CloneInto env r path bare).
Proof.
  unfold CloneInto, clone_or_update, update_existing, isBare, after_clone,
    refresh_other_refs, classify_refresh, forceGC.
  repeat silent_step.
Qed.

(** ** The notifier inside the orchestrator *)

Lemma SendSlackNotification_returns env url b (w : World) :
  exists err, fst (SendSlackNotification env url b w) = Val err.
Proof.
  unfold SendSlackNotification, bind, Marshal_, Post_.
  destruct (url =? "")%string; cbn; [eauto |].
  destruct (json_Marshal env (calls w) b); cbn; [| eauto].
  destruct (http_Post env _ url p); cbn; [| eauto].
  destruct (negb (z =? StatusOK)); cbn; eauto.
Qed.

Lemma notify_and_exit_exits env (A : Type) url start count errs failed code
    (w : World) :
  fst (@notify_and_exit env A url start count errs failed code w) = Exit code.
Proof.
  unfold notify_and_exit. unfold bind at 1.
  destruct (negb (url =? "")%string); [| reflexivity].
  unfold bind at 1. cbn [Now_]. unfold bind at 1. cbn [Now_].
  unfold bind at 1.
  match goal with
  | |- context [SendSlackNotification env url ?b ?w0] =>
      destruct (SendSlackNotification_returns env url b w0) as [err Herr];
      destruct (SendSlackNotification env url b w0) as [o w1]
  end.
  cbn in Herr. subst o. reflexivity.
Qed.

(** ** The loop over the repositories, given the verdicts *)

Section RepositoryLoop.

Variables (env : Env) (fl : Flags) (url : string) (start : Z).
Variables (dir_verdict sync_verdict : string -> Repository -> option error).
Variable sourceName : string.

Lemma backup_repo_outcome (t : Tally) (r : Repository) (w : World) :
  verdict_holds dir_verdict sync_verdict env fl sourceName r ->
  fst (backup_repo env fl url start sourceName t r w) =
    if repo_failed dir_verdict sync_verdict sourceName r && negb (failAtEnd fl)
    then Exit 100
    else Val (tally_repo dir_verdict sync_verdict sourceName t r).
Proof.
  intros [Hdir Hsync].
  unfold backup_repo, tally_repo, repo_failed, dir_failed, failure_note.
  unfold bind at 1. cbn [log_Printf].
  unfold bind at 1. unfold MkdirAll_ at 1. cbn [calls].
  fold (repo_path env fl sourceName r). rewrite Hdir.
  destruct (dir_verdict sourceName r) as [e |]; cbn [is_nil negb orb andb].
  - unfold bind at 1. cbn [log_Printf]. unfold bind at 1.
    destruct (failAtEnd fl); cbn [negb].
    + reflexivity.
    + unfold bind.
      match goal with
      | |- context [@notify_and_exit env ?A ?u ?s ?c ?e0 ?f ?code ?w0] =>
          pose proof (notify_and_exit_exits env A u s c e0 f code w0) as Hexit;
          destruct (@notify_and_exit env A u s c e0 f code w0) as [o w1]
      end.
      cbn in Hexit. subst o. reflexivity.
  - unfold bind at 1.
    match goal with
    | |- context [CloneInto env r ?p ?b ?w0] =>
        pose proof (Hsync w0) as Hrun;
        destruct (CloneInto env r p b w0) as [o w1]
    end.
    cbn in Hrun. subst o.
    destruct (sync_verdict sourceName r) as [e |]; cbn [is_nil negb orb andb].
    + unfold bind at 1. unfold bind at 1. cbn [log_Printf]. unfold bind at 1.
      destruct (failAtEnd fl); cbn [negb].
      * reflexivity.
      * unfold bind.
        match goal with
        | |- context [@notify_and_exit env ?A ?u ?s ?c ?e0 ?f ?code ?w0] =>
            pose proof (notify_and_exit_exits env A u s c e0 f code w0) as Hexit;
            destruct (@notify_and_exit env A u s c e0 f code w0) as [o w2]
        end.
        cbn in Hexit. subst o. reflexivity.
    + cbn. rewrite app_nil_r. reflexivity.
Qed.

End RepositoryLoop.

Section Loops.

Variables (env : Env) (fl : Flags) (url : string) (start : Z).
Variables (dir_verdict sync_verdict : string -> Repository -> option error).

Notation "'failed'" := (repo_failed dir_verdict sync_verdict).
Notation "'holds'" := (verdict_holds dir_verdict sync_verdict env fl).

Lemma repo_loop_outcome sourceName (repos : list Repository) :
  forall (t : Tally) (w : World),
  (forall r, In r repos -> holds sourceName r) ->
  fst (for_range (backup_repo env fl url start sourceName) repos t w) =
    if existsb (failed sourceName) repos && negb (failAtEnd fl)
    then Exit 100
    else Val (fold_left (tally_repo dir_verdict sync_verdict sourceName) repos t).
Proof.
  induction repos as [| r rest IH]; intros t w Hall.
  - reflexivity.
  - cbn [for_range existsb fold_left]. unfold bind.
    pose proof (backup_repo_outcome env fl url start dir_verdict sync_verdict
                  sourceName t r w (Hall r (or_introl eq_refl))) as Hstep.
    destruct (backup_repo env fl url start sourceName t r w) as [o w1].
    cbn [fst] in Hstep. subst o.
    destruct (failed sourceName r) eqn:Hr; destruct (failAtEnd fl) eqn:Hmode;
      cbn [andb orb negb] in *.
    + rewrite IH by (intros; apply Hall; right; assumption).
      rewrite andb_false_r. reflexivity.
    + reflexivity.
    + rewrite IH by (intros; apply Hall; right; assumption).
      rewrite andb_false_r. reflexivity.
    + rewrite IH by (intros; apply Hall; right; assumption).
      rewrite andb_true_r. reflexivity.
Qed.

Lemma backup_source_outcome (t : Tally) (s : RepositorySource) (w : World) :
  (forall r, In r (fst (ListRepositories s)) -> holds (GetName s) r) ->
  fst (backup_source env fl url start t s w) =
    match Test s, ListRepositories s with
    | Some _, _ => Exit 110
    | None, (_, Some _) => Exit 100
    | None, (repos, None) =>
        if existsb (failed (GetName s)) repos && negb (failAtEnd fl)
        then Exit 100
        else Val (tally_source dir_verdict sync_verdict t s)
    end.
Proof.
  intros Hall. unfold backup_source, tally_source. unfold bind at 1.
  cbn [log_Printf].
  destruct (Test s) as [e |].
  - unfold bind at 1. cbn [log_Printf]. apply notify_and_exit_exits.
  - destruct (ListRepositories s) as [repos [e |]]; cbn [fst] in *.
    + unfold bind at 1. cbn [log_Printf]. apply notify_and_exit_exits.
    + apply repo_loop_outcome. assumption.
Qed.

Lemma source_loop_outcome (sources : list RepositorySource) :
  forall (t : Tally) (w : World),
  verdicts_hold dir_verdict sync_verdict env fl sources ->
  fst (for_range (backup_source env fl url start) sources t w) =
    sources_outcome dir_verdict sync_verdict (failAtEnd fl) sources t.
Proof.
  induction sources as [| s rest IH]; intros t w Hall.
  - reflexivity.
  - cbn [for_range sources_outcome]. unfold bind.
    pose proof (backup_source_outcome t s w
                  (fun r Hr => Hall s r (or_introl eq_refl) Hr)) as Hstep.
    destruct (backup_source env fl url start t s w) as [o w1].
    cbn [fst] in Hstep. subst o.
    assert (Hrest : verdicts_hold dir_verdict sync_verdict env fl rest)
      by (intros s' r' Hs' Hr'; apply Hall; [right; assumption | assumption]).
    destruct (Test s) as [e |]; [reflexivity |].
    destruct (ListRepositories s) as [repos [e |]]; [reflexivity |].
    destruct (existsb (failed (GetName s)) repos && negb (failAtEnd fl));
      [reflexivity |].
    apply IH. assumption.
Qed.

Lemma finish_outcome (t : Tally) (w : World) :
  fst (finish env url start t w) = if errors t >? 0 then Exit 100 else Val tt.
Proof.
  unfold finish. unfold bind at 1. cbn [Now_]. unfold bind at 1.
  cbn [log_Printf]. unfold bind at 1.
  destruct (negb (url =? "")%string).
  - unfold bind at 1.
    match goal with
    | |- context [SendSlackNotification env url ?b ?w0] =>
        destruct (SendSlackNotification_returns env url b w0) as [err Herr];
        destruct (SendSlackNotification env url b w0) as [o w1]
    end.
    cbn in Herr. subst o. destruct err; cbn [log_Printf];
      destruct (errors t >? 0); reflexivity.
  - cbn [log_Printf]. destruct (errors t >? 0); reflexivity.
Qed.

End Loops.

(** ** [main], given the verdicts *)

Lemma main_outcome env fl dir_verdict sync_verdict
    (sources : list RepositorySource) :
  printVersion fl = false ->
  gitbackup_LoadFile env (configFilePath fl) = inl sources ->
  verdicts_hold dir_verdict sync_verdict env fl sources ->
  fst (main env fl init_world) =
    match sources with
    | [] => Exit 111
    | _ =>
        match sources_outcome dir_verdict sync_verdict (failAtEnd fl) sources
                {| repoCount := 0; errors := 0; failedRepos := [] |} with
        | Val t => if errors t >? 0 then Exit 100 else Val tt
        | Exit code => Exit code
        | Panic => Panic
        end
    end.
Proof.
  intros Hversion Hload Hall.
  unfold main. unfold bind at 1. cbn [log_Printf]. rewrite Hversion.
  unfold bind at 1. cbn [ret]. unfold bind at 1.
  unfold loadConfig. rewrite Hload. cbn [ret].
  destruct sources as [| s rest].
  - reflexivity.
  - unfold bind at 1. cbn [List.length Nat.eqb ret].
    unfold bind at 1. cbn [Now_]. unfold bind at 1.
    match goal with
    | |- context [for_range (backup_source env fl ?u ?st) ?l ?t0 ?w0] =>
        pose proof (source_loop_outcome env fl u st dir_verdict sync_verdict
                      l t0 w0 Hall) as Hloop;
        destruct (for_range (backup_source env fl u st) l t0 w0) as [o w1]
    end.
    cbn [fst] in Hloop. rewrite <- Hloop.
    destruct o as [t | code |]; [| reflexivity | reflexivity].
    apply finish_outcome.
Qed.

(** ** The counters *)

Lemma incr_no_wrap (n : Z) : 0 <= n < max_int -> incr n = n + 1.
Proof.
  unfold incr, wrap_int, max_int. intros H.
  rewrite Z.mod_small by lia. lia.
Qed.

Lemma existsb_filter {X : Type} (f : X -> bool) (l : list X) :
  existsb f l = (0 <? Z.of_nat (List.length (filter f l))).
Proof.
  induction l as [| x l IH]; [reflexivity |].
  cbn [existsb filter]. destruct (f x); cbn [orb List.length].
  - symmetry. apply Z.ltb_lt. lia.
  - exact IH.
Qed.

Section TallyArithmetic.

Variables (dir_verdict sync_verdict : string -> Repository -> option error).
Variable sourceName : string.

Notation "'step'" := (tally_repo dir_verdict sync_verdict sourceName).

Lemma fold_errors (repos : list Repository) :
  forall t : Tally,
  0 <= errors t ->
  errors t + Z.of_nat (List.length repos) <= max_int ->
  errors (fold_left step repos t) =
    errors t
    + Z.of_nat (List.length
                  (filter (repo_failed dir_verdict sync_verdict sourceName) repos)).
Proof.
  induction repos as [| r rest IH]; intros t Hpos Hmax.
  - cbn. lia.
  - cbn [fold_left filter]. cbn [List.length] in Hmax.
    assert (Hlen := filter_length_le
                      (repo_failed dir_verdict sync_verdict sourceName) rest).
    rewrite IH; unfold tally_repo; cbn [errors];
      destruct (repo_failed dir_verdict sync_verdict sourceName r);
      try rewrite incr_no_wrap by lia; cbn [List.length]; lia.
Qed.

Lemma fold_repoCount (repos : list Repository) :
  forall t : Tally,
  0 <= repoCount t ->
  repoCount t + Z.of_nat (List.length repos) <= max_int ->
  repoCount (fold_left step repos t) =
    repoCount t
    + Z.of_nat (List.length
                  (filter (fun r => negb (dir_failed dir_verdict sourceName r))
                     repos)).
Proof.
  induction repos as [| r rest IH]; intros t Hpos Hmax.
  - cbn. lia.
  - cbn [fold_left filter]. cbn [List.length] in Hmax.
    assert (Hlen := filter_length_le
                      (fun r => negb (dir_failed dir_verdict sourceName r)) rest).
    rewrite IH; unfold tally_repo; cbn [repoCount];
      destruct (dir_failed dir_verdict sourceName r); cbn [negb];
      try rewrite incr_no_wrap by lia; cbn [List.length]; lia.
Qed.

Lemma fold_failedRepos (repos : list Repository) :
  forall t : Tally,
  failedRepos (fold_left step repos t) =
    failedRepos t
    ++ flat_map (failure_note dir_verdict sync_verdict sourceName) repos.
Proof.
  induction repos as [| r rest IH]; intros t.
  - cbn. rewrite app_nil_r. reflexivity.
  - cbn [fold_left flat_map]. rewrite IH. unfold tally_repo.
    cbn [failedRepos]. rewrite app_assoc. reflexivity.
Qed.

End TallyArithmetic.

Lemma listed_cons (s : RepositorySource) (rest : list RepositorySource) :
  List.length (listed (s :: rest)) =
    (List.length (fst (ListRepositories s)) + List.length (listed rest))%nat.
Proof. unfold listed. cbn [flat_map]. apply length_app. Qed.

Lemma class_from_status dir_verdict sync_verdict fail_at_end
    (sources : list RepositorySource) :
  forall (t : Tally) (failed_before : bool),
  0 <= errors t ->
  errors t + Z.of_nat (List.length (listed sources)) <= max_int ->
  failed_before = (errors t >? 0) ->
  exit_status
    (match sources_outcome dir_verdict sync_verdict fail_at_end sources t with
     | Val t' => if errors t' >? 0 then Exit 100 else Val tt
     | Exit code => Exit code
     | Panic => Panic
     end)
  = status_of_class
      (class_from dir_verdict sync_verdict fail_at_end sources failed_before).
Proof.
  induction sources as [| s rest IH]; intros t failed_before Hpos Hmax Hflag.
  - cbn [sources_outcome class_from]. subst failed_before.
    destruct (errors t >? 0); reflexivity.
  - cbn [sources_outcome class_from].
    destruct (Test s) as [e |]; [reflexivity |].
    rewrite listed_cons in Hmax.
    destruct (ListRepositories s) as [repos [e |]] eqn:Hlist; [reflexivity |].
    cbn [fst] in Hmax.
    destruct (existsb (repo_failed dir_verdict sync_verdict (GetName s)) repos
              && negb fail_at_end) eqn:Hstop; [reflexivity |].
    assert (Herr : errors (tally_source dir_verdict sync_verdict t s) =
                   errors t
                   + Z.of_nat (List.length
                       (filter (repo_failed dir_verdict sync_verdict (GetName s))
                          repos))).
    { unfold tally_source. rewrite Hlist. cbn [fst].
      apply fold_errors; lia. }
    assert (Hlen := filter_length_le
                      (repo_failed dir_verdict sync_verdict (GetName s)) repos).
    apply IH.
    + lia.
    + lia.
    + rewrite Herr, existsb_filter. subst failed_before.
      destruct (Z.gtb_spec (errors t) 0);
        destruct (Z.ltb_spec 0
                    (Z.of_nat (List.length
                       (filter (repo_failed dir_verdict sync_verdict (GetName s))
                          repos))));
        cbn [orb]; symmetry;
        first [apply Z.gtb_lt; lia | apply Z.gtb_ltb; fail | idtac].
      rewrite Z.gtb_ltb. apply Z.ltb_ge. lia.
Qed.

(** ** Exit status *)

(** C2 as stated fails: a run that ends on a listing failure and a run
    that ends on a repository failure exit with the same status 100,
    while a connectivity failure, the other source failure, exits with
    110. *)
Lemma listing_and_sync_failure_share_status :
  let connectivity :=
    exit_status (fst (main connectivity_failure_env default_flags init_world)) in
  let listing :=
    exit_status (fst (main listing_failure_env default_flags init_world)) in
  let sync :=
    exit_status (fst (main sync_failure_env default_flags init_world)) in
  connectivity = 110 /\ listing = 100 /\ sync = 100
  /\ ~ (connectivity = listing /\ listing <> sync).
Proof.
  cbv zeta. repeat split; try reflexivity.
  intros [H _]. vm_compute in H. discriminate H.
Qed.

(** C2, amended: when the configuration loads, the exit status is
    decided by the class of the run: 0 for a run without failure, 111
    without sources, 110 when a source fails its connectivity test, and
    100 both when a source fails to list its repositories and when a
    repository fails (directory creation or sync).  The statuses 0, 111,
    110 and 100 are pairwise different; listing failures and repository
    failures share 100. *)
Theorem exit_status_by_class env fl dir_verdict sync_verdict
    (sources : list RepositorySource) :
  printVersion fl = false ->
  gitbackup_LoadFile env (configFilePath fl) = inl sources ->
  verdicts_hold dir_verdict sync_verdict env fl sources ->
  Z.of_nat (List.length (listed sources)) <= max_int ->
  exit_status (fst (main env fl init_world)) =
    status_of_class
      (class_of_run dir_verdict sync_verdict (failAtEnd fl) sources)
  /\ status_of_class FullSuccess = 0
  /\ status_of_class NoSources = 111
  /\ status_of_class ConnectivityFailure = 110
  /\ status_of_class ListingFailure = 100
  /\ status_of_class RepositoryFailure = 100.
Proof.
  intros Hversion Hload Hall Hmax.
  split; [| repeat split].
  rewrite (main_outcome env fl dir_verdict sync_verdict sources Hversion Hload Hall).
  destruct sources as [| s rest]; [reflexivity |].
  unfold class_of_run. apply class_from_status; cbn [errors]; [lia | lia | reflexivity].
Qed.

Lemma exit_status_by_class_witness :
  exit_status (fst (main sync_failure_env default_flags init_world)) =
    status_of_class
      (class_of_run (fun _ _ => None) (fun _ _ => Some network_error) false
         [one_repo_source])
  /\ status_of_class FullSuccess = 0
  /\ status_of_class NoSources = 111
  /\ status_of_class ConnectivityFailure = 110
  /\ status_of_class ListingFailure = 100
  /\ status_of_class RepositoryFailure = 100.
Proof.
  apply (exit_status_by_class sync_failure_env default_flags
           (fun _ _ => None) (fun _ _ => Some network_error) [one_repo_source]).
  - reflexivity.
  - reflexivity.
  - intros s r [Hs | []] Hr. subst s. destruct Hr as [Hr | []]. subst r.
    split; intros; reflexivity.
  - vm_compute. discriminate.
Defined.

(** ** Runs under fail-at-end *)

Lemma silent_for_range {X : Type} (body : Tally -> X -> M Tally) (xs : list X) :
  (forall t x, In x xs -> silent (body t x)) ->
  forall t, silent (for_range body xs t).
Proof.
  induction xs as [| x rest IH]; intros Hbody t.
  - apply silent_ret.
  - cbn [for_range]. apply silent_bind.
    + apply Hbody. left. reflexivity.
    + intros t'. apply IH. intros t0 x0 Hin. apply Hbody. right. assumption.
Qed.

Lemma silent_backup_repo env fl url start sourceName t r :
  failAtEnd fl = true ->
  silent (backup_repo env fl url start sourceName t r).
Proof.
  intros Hmode. unfold backup_repo. rewrite Hmode. cbn [negb].
  pose proof silent_CloneInto.
  repeat silent_step.
Qed.

Lemma silent_backup_source env fl url start t s :
  failAtEnd fl = true ->
  Test s = None -> snd (ListRepositories s) = None ->
  silent (backup_source env fl url start t s).
Proof.
  intros Hmode Htest Hlist. unfold backup_source. rewrite Htest.
  destruct (ListRepositories s) as [repos err]. cbn [snd] in Hlist. subst err.
  apply silent_bind; [apply silent_log | intros _].
  apply silent_for_range. intros t0 r _. apply silent_backup_repo. assumption.
Qed.

Lemma sources_outcome_healthy dir_verdict sync_verdict
    (sources : list RepositorySource) :
  sources_healthy sources ->
  forall t,
  sources_outcome dir_verdict sync_verdict true sources t =
    Val (fold_left (tally_source dir_verdict sync_verdict) sources t).
Proof.
  induction sources as [| s rest IH]; intros Hhealthy t; [reflexivity |].
  cbn [sources_outcome fold_left].
  destruct (Hhealthy s (or_introl eq_refl)) as [Htest Hlist]. rewrite Htest.
  destruct (ListRepositories s) as [repos err]. cbn [snd] in Hlist. subst err.
  rewrite andb_false_r. apply IH.
  intros s' Hs'. apply Hhealthy. right. assumption.
Qed.

Lemma finish_summaries env url start t (w : World) :
  url <> "" ->
  summaries (calls (snd (finish env url start t w))) =
    final_summary env start t (calls w) :: summaries (calls w).
Proof.
  intros Hurl. unfold finish, SendSlackNotification, final_summary.
  destruct (String.eqb_spec url "") as [Heq | _]; [contradiction |].
  cbn [negb]. unfold bind, Now_, Marshal_, Post_. cbn.
  destruct (json_Marshal env _ _); cbn.
  - destruct (http_Post env _ url p); cbn.
    + destruct (negb (z =? StatusOK)); cbn; destruct (errors t >? 0); reflexivity.
    + destruct (errors t >? 0); reflexivity.
  - destruct (errors t >? 0); reflexivity.
Qed.

(** The whole run when no source fails and failures are collected: the
    loop ends with the counters [fold_left tally_source] and has handed
    nothing to the notifier. *)
Lemma main_reaches_finish env fl dir_verdict sync_verdict
    (sources : list RepositorySource) :
  printVersion fl = false ->
  failAtEnd fl = true ->
  gitbackup_LoadFile env (configFilePath fl) = inl sources ->
  sources <> [] ->
  sources_healthy sources ->
  verdicts_hold dir_verdict sync_verdict env fl sources ->
  exists w1,
    main env fl init_world =
      finish env (webhook_of env fl) (time_Now env [])
        (fold_left (tally_source dir_verdict sync_verdict) sources
           {| repoCount := 0; errors := 0; failedRepos := [] |}) w1
    /\ summaries (calls w1) = [].
Proof.
  intros Hversion Hmode Hload Hne Hhealthy Hall.
  unfold main. unfold bind at 1. cbn [log_Printf]. rewrite Hversion.
  unfold bind at 1. cbn [ret]. unfold bind at 1.
  unfold loadConfig. rewrite Hload. cbn [ret].
  destruct sources as [| s rest]; [contradiction |].
  unfold bind at 1. cbn [List.length Nat.eqb ret].
  unfold bind at 1. cbn [Now_]. unfold bind at 1.
  fold (webhook_of env fl).
  match goal with
  | |- context [for_range (backup_source env fl ?u ?st) ?l ?t0 ?w0] =>
      pose proof (source_loop_outcome env fl u st dir_verdict sync_verdict
                    l t0 w0 Hall) as Hloop;
      pose proof (silent_for_range (backup_source env fl u st) l
                    (fun t1 s1 Hin =>
                       silent_backup_source env fl u st t1 s1 Hmode
                         (proj1 (Hhealthy s1 Hin)) (proj2 (Hhealthy s1 Hin)))
                    t0 w0) as Hsilent;
      destruct (for_range (backup_source env fl u st) l t0 w0) as [o w1]
  end.
  rewrite Hmode, sources_outcome_healthy in Hloop by assumption.
  cbn [fst snd] in Hloop, Hsilent. subst o.
  exists w1. split; [reflexivity | exact Hsilent].
Qed.

Lemma main_fail_at_end env fl dir_verdict sync_verdict
    (sources : list RepositorySource) :
  printVersion fl = false ->
  failAtEnd fl = true ->
  webhook_of env fl <> "" ->
  gitbackup_LoadFile env (configFilePath fl) = inl sources ->
  sources <> [] ->
  sources_healthy sources ->
  verdicts_hold dir_verdict sync_verdict env fl sources ->
  let t := fold_left (tally_source dir_verdict sync_verdict) sources
             {| repoCount := 0; errors := 0; failedRepos := [] |} in
  exists h,
    summaries (calls (snd (main env fl init_world))) =
      [final_summary env (time_Now env []) t h]
    /\ fst (main env fl init_world) = if errors t >? 0 then Exit 100 else Val tt.
Proof.
  intros Hversion Hmode Hurl Hload Hne Hhealthy Hall t.
  destruct (main_reaches_finish env fl dir_verdict sync_verdict sources
              Hversion Hmode Hload Hne Hhealthy Hall) as [w1 [Hmain Hsilent]].
  exists (calls w1). rewrite Hmain. split.
  - rewrite finish_summaries by assumption. rewrite Hsilent. reflexivity.
  - apply finish_outcome.
Qed.

(** ** The counters at the end of a run under fail-at-end *)

Lemma sources_tally dir_verdict sync_verdict (sources : list RepositorySource) :
  forall t : Tally,
  0 <= errors t -> 0 <= repoCount t ->
  errors t + Z.of_nat (List.length (listed sources)) <= max_int ->
  repoCount t + Z.of_nat (List.length (listed sources)) <= max_int ->
  let t' := fold_left (tally_source dir_verdict sync_verdict) sources t in
  errors t' =
    errors t + Z.of_nat (List.length (failed_repos dir_verdict sync_verdict sources))
  /\ repoCount t' =
       repoCount t + Z.of_nat (List.length (synced_repos dir_verdict sources))
  /\ failedRepos t' =
       failedRepos t ++ failure_notes dir_verdict sync_verdict sources.
Proof.
  induction sources as [| s rest IH]; intros t He Hr Hemax Hrmax.
  - cbn. rewrite app_nil_r. repeat split; lia.
  - rewrite listed_cons in Hemax, Hrmax.
    cbn [fold_left]. unfold failed_repos, synced_repos, failure_notes.
    cbn [flat_map]. rewrite !length_app.
    pose proof (filter_length_le
                  (repo_failed dir_verdict sync_verdict (GetName s))
                  (fst (ListRepositories s))) as Hle1.
    pose proof (filter_length_le
                  (fun r => negb (dir_failed dir_verdict (GetName s) r))
                  (fst (ListRepositories s))) as Hle2.
    assert (He' : errors (tally_source dir_verdict sync_verdict t s) =
                  errors t
                  + Z.of_nat (List.length
                      (filter (repo_failed dir_verdict sync_verdict (GetName s))
                         (fst (ListRepositories s)))))
      by (apply fold_errors; lia).
    assert (Hr' : repoCount (tally_source dir_verdict sync_verdict t s) =
                  repoCount t
                  + Z.of_nat (List.length
                      (filter (fun r => negb (dir_failed dir_verdict (GetName s) r))
                         (fst (ListRepositories s)))))
      by (apply fold_repoCount; lia).
    assert (Hf' : failedRepos (tally_source dir_verdict sync_verdict t s) =
                  failedRepos t
                  ++ flat_map (failure_note dir_verdict sync_verdict (GetName s))
                       (fst (ListRepositories s)))
      by apply fold_failedRepos.
    destruct (IH (tally_source dir_verdict sync_verdict t s)) as [IHe [IHr IHf]];
      try lia.
    fold (failed_repos dir_verdict sync_verdict rest).
    fold (synced_repos dir_verdict rest).
    fold (failure_notes dir_verdict sync_verdict rest).
    rewrite IHe, IHr, IHf, He', Hr', Hf'. rewrite app_assoc.
    repeat split; lia.
Qed.

Lemma synced_and_dir_failed dir_verdict (sources : list RepositorySource) :
  (List.length (synced_repos dir_verdict sources)
   + List.length (dir_failed_repos dir_verdict sources)
   = List.length (listed sources))%nat.
Proof.
  induction sources as [| s rest IH]; [reflexivity |].
  rewrite listed_cons. unfold synced_repos, dir_failed_repos in *.
  cbn [flat_map]. rewrite !length_app.
  pose proof (filter_length (dir_failed dir_verdict (GetName s))
                (fst (ListRepositories s))).
  lia.
Qed.

(** C7, at a failing input: under fail-at-end, with a first repository
    whose directory cannot be created and a second one that syncs, the
    [continue] after the directory failure skips [repoCount++]: the
    summary counts one repository where two are listed, while a
    repository whose clone fails is counted.  Both repositories are
    attempted and [ErrorCount] is 1, as the claim says. *)
Lemma dir_failure_is_not_counted :
  let run := main dir_failure_env fail_at_end_flags init_world in
  map (fun b => (RepoCount b, ErrorCount b, FailedRepos b))
    (summaries (calls (snd run)))
  = [(1, 1, ["org/locked (directory creation failed)"])]
  /\ List.length (listed [two_repo_source]) = 2%nat
  /\ ~ (forall b, In b (summaries (calls (snd run))) ->
          RepoCount b = Z.of_nat (List.length (listed [two_repo_source]))).
Proof.
  cbv zeta. split; [vm_compute; reflexivity | split; [reflexivity |]].
  intros H.
  assert (Hex : exists b,
            In b (summaries (calls (snd (main dir_failure_env
                                           fail_at_end_flags init_world))))
            /\ RepoCount b = 1).
  { vm_compute. eexists. split; [left; reflexivity | reflexivity]. }
  destruct Hex as [b [Hin Hb]]. specialize (H b Hin). rewrite Hb in H.
  vm_compute in H. discriminate H.
Qed.

(** What the code reports under fail-at-end in a run whose sources all
    pass the connectivity test and list their repositories: the one
    summary handed to the notifier has [ErrorCount] equal to the number
    of listed repositories that failed (directory creation or sync),
    [FailedRepos] holding one note per failed repository in listing
    order, and [RepoCount] equal to the number of listed repositories
    whose directory was created, which falls short of the number of
    listed repositories by those whose directory creation failed. *)
Theorem fail_at_end_counts env fl dir_verdict sync_verdict
    (sources : list RepositorySource) :
  printVersion fl = false ->
  failAtEnd fl = true ->
  webhook_of env fl <> "" ->
  gitbackup_LoadFile env (configFilePath fl) = inl sources ->
  sources <> [] ->
  sources_healthy sources ->
  verdicts_hold dir_verdict sync_verdict env fl sources ->
  Z.of_nat (List.length (listed sources)) <= max_int ->
  exists b,
    summaries (calls (snd (main env fl init_world))) = [b]
    /\ ErrorCount b =
         Z.of_nat (List.length (failed_repos dir_verdict sync_verdict sources))
    /\ FailedRepos b = failure_notes dir_verdict sync_verdict sources
    /\ RepoCount b = Z.of_nat (List.length (synced_repos dir_verdict sources))
    /\ RepoCount b =
         Z.of_nat (List.length (listed sources))
         - Z.of_nat (List.length (dir_failed_repos dir_verdict sources)).
Proof.
  intros Hversion Hmode Hurl Hload Hne Hhealthy Hall Hmax.
  destruct (main_fail_at_end env fl dir_verdict sync_verdict sources
              Hversion Hmode Hurl Hload Hne Hhealthy Hall) as [h [Hsum _]].
  destruct (sources_tally dir_verdict sync_verdict sources
              {| repoCount := 0; errors := 0; failedRepos := [] |})
    as [He [Hr Hf]]; cbn [errors repoCount]; try lia.
  pose proof (synced_and_dir_failed dir_verdict sources) as Hsplit.
  eexists. split; [exact Hsum |].
  unfold final_summary. cbn [ErrorCount RepoCount FailedRepos].
  rewrite He, Hr, Hf. cbn [errors repoCount failedRepos app].
  repeat split; lia.
Qed.

Lemma fail_at_end_counts_witness :
  exists b,
    summaries (calls (snd (main dir_failure_env fail_at_end_flags init_world))) = [b]
    /\ ErrorCount b = 1
    /\ FailedRepos b = ["org/locked (directory creation failed)"]
    /\ RepoCount b = 1
    /\ RepoCount b = 2 - 1.
Proof.
  apply (fail_at_end_counts dir_failure_env fail_at_end_flags
           (fun _ r => if (FullName r =? "org/locked")%string
                       then Some (ErrorString "permission denied")
                       else None)
           (fun _ _ => None)
           [two_repo_source]).
  - reflexivity.
  - reflexivity.
  - discriminate.
  - reflexivity.
  - discriminate.
  - intros s [Hs | []]. subst s. split; reflexivity.
  - intros s r [Hs | []] Hr. subst s.
    destruct Hr as [Hr | [Hr | []]]; subst r; split; intros; reflexivity.
  - vm_compute. discriminate.
Defined.

(** ** The scenario with three repositories *)

Lemma Permutation_filter_length {X : Type} (f : X -> bool) (l l' : list X) :
  Permutation l l' ->
  List.length (filter f l) = List.length (filter f l').
Proof.
  induction 1 as [| x l l' _ IH | x y l | l l' l'' _ IH1 _ IH2].
  - reflexivity.
  - cbn. destruct (f x); cbn; congruence.
  - cbn. destruct (f x), (f y); reflexivity.
  - congruence.
Qed.

(** C1 as stated fails: with an empty repository, a repository whose
    clone breaks off and a repository that syncs, under fail-at-end, the
    summary counts all three repositories, not two. *)
Lemma failed_clone_is_counted :
  let run := main three_repo_env fail_at_end_flags init_world in
  map (fun b => (RepoCount b, ErrorCount b, FailedRepos b))
    (summaries (calls (snd run)))
  = [(3, 1, ["org/broken (connection reset by peer)"])]
  /\ ~ (exists b, In b (summaries (calls (snd run))) /\ RepoCount b = 2).
Proof.
  cbv zeta. split; [vm_compute; reflexivity |].
  intros [b [Hin Hcount]].
  assert (Hall : Forall (fun b => RepoCount b = 3)
                   (summaries (calls (snd (main three_repo_env
                                             fail_at_end_flags init_world)))))
    by (vm_compute; repeat constructor).
  rewrite Forall_forall in Hall. specialize (Hall b Hin).
  rewrite Hall in Hcount. discriminate Hcount.
Qed.

(** C1, amended: under fail-at-end, when a source lists exactly three
    repositories, in any order, of which one is an empty remote
    repository, one fails its clone with an error [e] that is none of
    the sentinels, and one syncs, the one summary handed to the notifier
    has [RepoCount] 3 (the failed repository is counted as well),
    [ErrorCount] 1 and a [FailedRepos] list with the single entry that
    names the failed repository and its error; the process exits with
    100. *)
Theorem three_repo_scenario env fl (s : RepositorySource)
    (listing : list Repository) (r_empty r_broken r_fine : Repository)
    (e : error) (g : repo) :
  printVersion fl = false ->
  failAtEnd fl = true ->
  webhook_of env fl <> "" ->
  gitbackup_LoadFile env (configFilePath fl) = inl [s] ->
  Test s = None ->
  ListRepositories s = (listing, None) ->
  Permutation listing [r_empty; r_broken; r_fine] ->
  (forall h p, os_MkdirAll env h p = None) ->
  (forall h p b,
     errors_Is (snd (git_PlainClone env h p b (clone_options r_empty)))
       ErrEmptyRemoteRepository = true) ->
  (forall h p b, snd (git_PlainClone env h p b (clone_options r_broken)) = Some e) ->
  (forall sen, Is e sen = false) ->
  (forall h p b, git_PlainClone env h p b (clone_options r_fine) = (Some g, None)) ->
  (forall h o, fetch_failed (repo_Fetch env h g o) = false) ->
  exists b,
    summaries (calls (snd (main env fl init_world))) = [b]
    /\ RepoCount b = 3
    /\ ErrorCount b = 1
    /\ FailedRepos b = [FullName r_broken ++ " (" ++ Error e ++ ")"]%string
    /\ Success b = false
    /\ exit_status (fst (main env fl init_world)) = 100.
Proof.
  intros Hversion Hmode Hurl Hload Htest Hlist Hperm Hmkdir Hempty Hbroken
    Hplain Hfine Hfetch.
  set (dv := fun (_ : string) (_ : Repository) => @None error).
  set (sv := fun (_ : string) (r : Repository) =>
               if Repository_eq_dec r r_broken then Some e else None).
  assert (Hne1 : r_empty <> r_broken).
  { intros Heq. specialize (Hempty [] "" false). rewrite Heq in Hempty.
    rewrite (Hbroken [] "" false) in Hempty. cbn in Hempty.
    rewrite Hplain in Hempty. discriminate. }
  assert (Hne2 : r_fine <> r_broken).
  { intros Heq. specialize (Hfine [] "" false). rewrite Heq in Hfine.
    specialize (Hbroken [] "" false). rewrite Hfine in Hbroken.
    discriminate. }
  assert (Hall : verdicts_hold dv sv env fl [s]).
  { intros s' r [Hs | []] Hr. subst s'. rewrite Hlist in Hr. cbn [fst] in Hr.
    apply (Permutation_in _ Hperm) in Hr. split; [intros; apply Hmkdir |].
    intros w. unfold sv.
    destruct Hr as [Hr | [Hr | [Hr | []]]]; subst r.
    - destruct (Repository_eq_dec r_empty r_broken); [contradiction |].
      rewrite CloneInto_empty_run by apply Hempty. reflexivity.
    - destruct (Repository_eq_dec r_broken r_broken); [| contradiction].
      apply CloneInto_clone_error; [apply Hbroken | exact Hplain].
    - destruct (Repository_eq_dec r_fine r_broken); [contradiction |].
      eapply CloneInto_fresh_clone; [apply Hfine | exact Hfetch]. }
  assert (Hhealthy : sources_healthy [s]).
  { intros s' [Hs | []]. subst s'. rewrite Hlist. split; [exact Htest | reflexivity]. }
  destruct (main_fail_at_end env fl dv sv [s] Hversion Hmode Hurl Hload
              ltac:(discriminate) Hhealthy Hall) as [h [Hsum Hexit]].
  cbn [fold_left] in Hsum, Hexit. unfold tally_source in Hsum, Hexit.
  rewrite Hlist in Hsum, Hexit. cbn [fst] in Hsum, Hexit.
  pose proof (Permutation_length Hperm) as Hlen. cbn [List.length] in Hlen.
  assert (He : errors (fold_left (tally_repo dv sv (GetName s)) listing
                         {| repoCount := 0; errors := 0; failedRepos := [] |}) = 1).
  { rewrite fold_errors; cbn [errors]; [| lia | rewrite Hlen; vm_compute; discriminate].
    rewrite (Permutation_filter_length _ _ _ Hperm).
    unfold repo_failed, dv, sv. cbn [filter is_nil negb orb].
    destruct (Repository_eq_dec r_empty r_broken); [contradiction |].
    destruct (Repository_eq_dec r_broken r_broken); [| contradiction].
    destruct (Repository_eq_dec r_fine r_broken); [contradiction |].
    reflexivity. }
  assert (Hr : repoCount (fold_left (tally_repo dv sv (GetName s)) listing
                            {| repoCount := 0; errors := 0; failedRepos := [] |}) = 3).
  { rewrite fold_repoCount; cbn [repoCount];
      [| lia | rewrite Hlen; vm_compute; discriminate].
    rewrite (Permutation_filter_length _ _ _ Hperm). reflexivity. }
  assert (Hf : failedRepos (fold_left (tally_repo dv sv (GetName s)) listing
                              {| repoCount := 0; errors := 0; failedRepos := [] |})
               = [FullName r_broken ++ " (" ++ Error e ++ ")"]%string).
  { rewrite fold_failedRepos. cbn [failedRepos app].
    apply Permutation_length_1_inv.
    rewrite (Permutation_flat_map _ Hperm).
    unfold failure_note, dv, sv. cbn [flat_map].
    destruct (Repository_eq_dec r_empty r_broken); [contradiction |].
    destruct (Repository_eq_dec r_broken r_broken); [| contradiction].
    destruct (Repository_eq_dec r_fine r_broken); [contradiction |].
    reflexivity. }
  eexists. split; [exact Hsum |].
  unfold final_summary. cbn [RepoCount ErrorCount FailedRepos Success].
  rewrite Hexit, He, Hr, Hf. repeat split; reflexivity.
Qed.

Lemma three_repo_scenario_witness :
  exists b,
    summaries (calls (snd (main three_repo_env fail_at_end_flags init_world))) = [b]
    /\ RepoCount b = 3
    /\ ErrorCount b = 1
    /\ FailedRepos b = ["org/broken (connection reset by peer)"]
    /\ Success b = false
    /\ exit_status (fst (main three_repo_env fail_at_end_flags init_world)) = 100.
Proof.
  apply (three_repo_scenario three_repo_env fail_at_end_flags three_repo_source
           [repo_named "org/empty"; repo_named "org/broken"; repo_named "org/app"]
           (repo_named "org/empty") (repo_named "org/broken") (repo_named "org/app")
           network_error 1%nat).
  - reflexivity.
  - reflexivity.
  - discriminate.
  - reflexivity.
  - reflexivity.
  - reflexivity.
  - apply Permutation_refl.
  - reflexivity.
  - reflexivity.
  - reflexivity.
  - intros sen. reflexivity.
  - reflexivity.
  - reflexivity.
Defined.

(** ** Error count and failure list in every summary *)

Lemma keeps_ret {A : Type} (a : A) (Q : A -> Prop) : Q a -> keeps (ret a) Q.
Proof.
  intros HQ w Hw. split; [exact Hw |]. cbn. intros a' Heq.
  injection Heq as <-. exact HQ.
Qed.

Lemma keeps_bind {A B : Type} (c : M A) (k : A -> M B)
    (P : A -> Prop) (Q : B -> Prop) :
  keeps c P -> (forall a, P a -> keeps (k a) Q) -> keeps (bind c k) Q.
Proof.
  intros Hc Hk w Hw. unfold bind. destruct (Hc w Hw) as [Hinv Hval].
  destruct (c w) as [[a | code |] w1]; cbn [fst snd] in *.
  - apply (Hk a (Hval a eq_refl) w1 Hinv).
  - split; [exact Hinv | discriminate].
  - split; [exact Hinv | discriminate].
Qed.

Lemma keeps_silent {A : Type} (c : M A) : silent c -> keeps c (fun _ => True).
Proof.
  intros Hc w Hw. split; [| trivial]. unfold all_agree. rewrite Hc. exact Hw.
Qed.

Lemma keeps_weaken {A : Type} (c : M A) (P Q : A -> Prop) :
  keeps c P -> (forall a, P a -> Q a) -> keeps c Q.
Proof.
  intros Hc HPQ w Hw. destruct (Hc w Hw) as [Hinv Hval].
  split; [exact Hinv | intros a Ha; apply HPQ, Hval, Ha].
Qed.

Lemma keeps_exit {A : Type} (code : Z) (Q : A -> Prop) : keeps (os_Exit code) Q.
Proof. intros w Hw. split; [exact Hw | discriminate]. Qed.

Lemma keeps_Now env : keeps (Now_ env) (fun _ => True).
Proof. apply keeps_silent. intros w. reflexivity. Qed.

Lemma keeps_SendSlackNotification env url b :
  counts_agree b -> keeps (SendSlackNotification env url b) (fun _ => True).
Proof.
  intros Hb w Hw. split; [| trivial].
  unfold SendSlackNotification, bind, Marshal_, Post_.
  destruct (url =? "")%string; cbn; [exact Hw |].
  assert (Hnew : Forall counts_agree (b :: summaries (calls w)))
    by (constructor; assumption).
  destruct (json_Marshal env (calls w) b); cbn; [| exact Hnew].
  destruct (http_Post env _ url p); cbn; [| exact Hnew].
  destruct (negb (z =? StatusOK)); exact Hnew.
Qed.

Lemma keeps_notify_and_exit env (A : Type) url start count errs failed code
    (Q : A -> Prop) :
  errs = Z.of_nat (List.length failed) ->
  keeps (@notify_and_exit env A url start count errs failed code) Q.
Proof.
  intros Hagree. unfold notify_and_exit.
  apply keeps_bind with (P := fun _ => True); [| intros; apply keeps_exit].
  destruct (negb (url =? "")%string); [| apply keeps_ret; trivial].
  apply keeps_bind with (P := fun _ => True); [apply keeps_Now | intros now1 _].
  apply keeps_bind with (P := fun _ => True); [apply keeps_Now | intros now2 _].
  apply keeps_bind with (P := fun _ => True); [| intros; apply keeps_ret; trivial].
  apply keeps_SendSlackNotification. exact Hagree.
Qed.

Section Invariant.

Variables (env : Env) (fl : Flags) (url : string) (start : Z).

(** After one repository the counters still agree and the failure list
    has grown by at most one entry. *)
Lemma keeps_backup_repo sourceName (t : Tally) (r : Repository) :
  tally_agrees t ->
  Z.of_nat (List.length (failedRepos t)) < max_int ->
  keeps (backup_repo env fl url start sourceName t r)
    (fun t' => tally_agrees t'
               /\ (List.length (failedRepos t')
                   <= List.length (failedRepos t) + 1)%nat).
Proof.
  intros Ht Hmax. unfold tally_agrees in Ht.
  assert (Hgrow : forall note : string,
            incr (errors t) = Z.of_nat (List.length (failedRepos t ++ [note]))).
  { intros note. rewrite incr_no_wrap by lia.
    rewrite length_app. cbn [List.length]. lia. }
  unfold backup_repo.
  apply keeps_bind with (P := fun _ => True);
    [apply keeps_silent, silent_log | intros _ _].
  apply keeps_bind with (P := fun _ => True);
    [apply keeps_silent, silent_MkdirAll | intros err _].
  destruct err as [e |].
  - apply keeps_bind with (P := fun _ => True);
      [apply keeps_silent, silent_log | intros _ _].
    apply keeps_bind with (P := fun _ => True).
    + destruct (negb (failAtEnd fl)); [| apply keeps_ret; trivial].
      apply keeps_notify_and_exit. apply Hgrow.
    + intros _ _. apply keeps_ret. unfold tally_agrees. cbn [errors failedRepos].
      split; [apply Hgrow |]. rewrite length_app. cbn [List.length]. lia.
  - apply keeps_bind with (P := fun _ => True);
      [apply keeps_silent, silent_CloneInto | intros err _].
    apply keeps_bind
      with (P := fun t' => tally_agrees t'
                           /\ (List.length (failedRepos t')
                               <= List.length (failedRepos t) + 1)%nat).
    + destruct err as [e |].
      * apply keeps_bind with (P := fun _ => True);
          [apply keeps_silent, silent_log | intros _ _].
        apply keeps_bind with (P := fun _ => True).
        -- destruct (negb (failAtEnd fl)); [| apply keeps_ret; trivial].
           apply keeps_notify_and_exit. apply Hgrow.
        -- intros _ _. apply keeps_ret. unfold tally_agrees.
           cbn [errors failedRepos].
           split; [apply Hgrow |]. rewrite length_app. cbn [List.length]. lia.
      * apply keeps_ret. split; [exact Ht | lia].
    + intros t' [Ht' Hlen]. apply keeps_ret. split; assumption.
Qed.

Lemma keeps_repo_loop sourceName (repos : list Repository) :
  forall t : Tally,
  tally_agrees t ->
  Z.of_nat (List.length (failedRepos t) + List.length repos) <= max_int ->
  keeps (for_range (backup_repo env fl url start sourceName) repos t)
    (fun t' => tally_agrees t'
               /\ (List.length (failedRepos t')
                   <= List.length (failedRepos t) + List.length repos)%nat).
Proof.
  induction repos as [| r rest IH]; intros t Ht Hmax.
  - apply keeps_ret. split; [exact Ht | lia].
  - cbn [for_range]. cbn [List.length] in Hmax.
    eapply keeps_bind; [apply keeps_backup_repo; [exact Ht | lia] |].
    cbn beta. intros t' [Ht' Hlen].
    eapply keeps_weaken; [apply IH; [exact Ht' | lia] |].
    cbn beta. intros t'' [Ht'' Hlen']. split; [exact Ht'' |].
    cbn [List.length]. lia.
Qed.

Lemma keeps_backup_source (t : Tally) (s : RepositorySource) :
  tally_agrees t ->
  Z.of_nat (List.length (failedRepos t)
            + List.length (fst (ListRepositories s))) <= max_int ->
  keeps (backup_source env fl url start t s)
    (fun t' => tally_agrees t'
               /\ (List.length (failedRepos t')
                   <= List.length (failedRepos t)
                      + List.length (fst (ListRepositories s)))%nat).
Proof.
  intros Ht Hmax. unfold backup_source.
  apply keeps_bind with (P := fun _ => True);
    [apply keeps_silent, silent_log | intros _ _].
  destruct (Test s) as [e |].
  - apply keeps_bind with (P := fun _ => True);
      [apply keeps_silent, silent_log | intros _ _].
    apply keeps_notify_and_exit. reflexivity.
  - destruct (ListRepositories s) as [repos [e |]]; cbn [fst] in *.
    + apply keeps_bind with (P := fun _ => True);
        [apply keeps_silent, silent_log | intros _ _].
      apply keeps_notify_and_exit. reflexivity.
    + apply keeps_repo_loop; assumption.
Qed.

Lemma keeps_source_loop (sources : list RepositorySource) :
  forall t : Tally,
  tally_agrees t ->
  Z.of_nat (List.length (failedRepos t) + List.length (listed sources)) <= max_int ->
  keeps (for_range (backup_source env fl url start) sources t) tally_agrees.
Proof.
  induction sources as [| s rest IH]; intros t Ht Hmax.
  - apply keeps_ret. exact Ht.
  - cbn [for_range]. rewrite listed_cons in Hmax.
    eapply keeps_bind; [apply keeps_backup_source; [exact Ht | lia] |].
    cbn beta. intros t' [Ht' Hlen]. apply IH; [exact Ht' | lia].
Qed.

Lemma keeps_finish (t : Tally) :
  tally_agrees t -> keeps (finish env url start t) (fun _ => True).
Proof.
  intros Ht. unfold finish.
  apply keeps_bind with (P := fun _ => True); [apply keeps_Now | intros now _].
  apply keeps_bind with (P := fun _ => True);
    [apply keeps_silent, silent_log | intros _ _].
  apply keeps_bind with (P := fun _ => True).
  - destruct (negb (url =? "")%string); [| apply keeps_silent, silent_log].
    apply keeps_bind with (P := fun _ => True).
    + apply keeps_SendSlackNotification. exact Ht.
    + intros err _. destruct err; apply keeps_silent, silent_log.
  - intros _ _. destruct (errors t >? 0); [apply keeps_exit | apply keeps_ret; trivial].
Qed.

End Invariant.

Lemma keeps_main env fl :
  (forall sources,
     gitbackup_LoadFile env (configFilePath fl) = inl sources ->
     Z.of_nat (List.length (listed sources)) <= max_int) ->
  keeps (main env fl) (fun _ => True).
Proof.
  intros Hmax. unfold main.
  apply keeps_bind with (P := fun _ => True);
    [apply keeps_silent, silent_log | intros _ _].
  apply keeps_bind with (P := fun _ => True).
  { destruct (printVersion fl); [| apply keeps_ret; trivial].
    apply keeps_bind with (P := fun _ => True);
      [apply keeps_silent, silent_log | intros _ _].
    apply keeps_bind with (P := fun _ => True);
      [apply keeps_silent, silent_log | intros _ _].
    apply keeps_exit. }
  intros _ _.
  apply keeps_bind
    with (P := fun sources => Z.of_nat (List.length (listed sources)) <= max_int).
  { unfold loadConfig.
    destruct (gitbackup_LoadFile env (configFilePath fl)) as [sources | err].
    - apply keeps_ret. apply Hmax. reflexivity.
    - destruct (os_IsNotExist env err);
        (apply keeps_bind with (P := fun _ => True);
         [apply keeps_silent, silent_log | intros _ _; apply keeps_exit]). }
  intros sources Hsources.
  apply keeps_bind with (P := fun _ => True).
  { destruct (List.length sources =? 0)%nat; [| apply keeps_ret; trivial].
    apply keeps_bind with (P := fun _ => True);
      [apply keeps_silent, silent_log | intros _ _; apply keeps_exit]. }
  intros _ _.
  apply keeps_bind with (P := fun _ => True); [apply keeps_Now | intros start _].
  apply keeps_bind with (P := tally_agrees).
  - apply keeps_source_loop; [reflexivity | exact Hsources].
  - intros t Ht. apply keeps_finish. exact Ht.
Qed.

(** C9: in a run of [main] whose sources list no more repositories than
    an [int] can count, every [BackupResult] handed to the notifier, at
    a fatal exit or at the end of the run, has [ErrorCount] equal to the
    length of [FailedRepos]. *)
Theorem error_count_is_length_of_failed_repos env fl (b : BackupResult) :
  (forall sources,
     gitbackup_LoadFile env (configFilePath fl) = inl sources ->
     Z.of_nat (List.length (listed sources)) <= max_int) ->
  In b (summaries (calls (snd (main env fl init_world)))) ->
  ErrorCount b = Z.of_nat (List.length (FailedRepos b)).
Proof.
  intros Hmax Hin.
  destruct (keeps_main env fl Hmax init_world) as [Hinv _].
  { constructor. }
  unfold all_agree in Hinv. rewrite Forall_forall in Hinv.
  apply Hinv. exact Hin.
Qed.

Lemma error_count_is_length_of_failed_repos_witness :
  let b := hd sample_result
             (summaries (calls (snd (main sync_failure_env webhook_flags
                                       init_world)))) in
  ErrorCount b = Z.of_nat (List.length (FailedRepos b)).
Proof.
  apply (error_count_is_length_of_failed_repos sync_failure_env webhook_flags).
  - intros sources Hload. injection Hload as <-. vm_compute. discriminate.
  - left. reflexivity.
Defined.

(** ** Two calls in a row *)

Section Idempotence.

Variable env : Env.
Variables (r : Repository) (path : string) (bare : bool).



End Idempotence.









Lemma CloneInto_final_fetch_decides_witness :
  exists final w',
    CloneInto existing_mirror_env sample_repo "backup/forge/org/app" true init_world
    = (Val match final with
           | Some (Sentinel NoErrAlreadyUpToDate) => None
           | None => None
           | Some e => Some e
           end, w')
    /\ last_fetch (calls w') = Some final
    /\ hd_error (logs w') =
         Some (if err_eq final NoErrAlreadyUpToDate
               then Printf "All refs up-to-date for %s" [ArgS "org/app"]
               else MemoryUsage ("After fetch for " ++ "org/app")).
Proof.
  apply (CloneInto_final_fetch_decides existing_mirror_env sample_repo
           "backup/forge/org/app" true init_world
           (snd (clone_or_update existing_mirror_env sample_repo
                   "backup/forge/org/app" true init_world))
           1%nat (Some (Sentinel NoErrAlreadyUpToDate))).
  - reflexivity.
  - reflexivity.
Defined.

(* ===================================================================== *)
(** * Further properties *)

(** ** The calls a computation makes *)

Lemma makes_only_ret {A : Type} (C : call -> Prop) (a : A) : makes_only C (ret a).
Proof. intros w. exists []. split; [reflexivity | constructor]. Qed.

Lemma makes_only_bind {A B : Type} (C : call -> Prop) (c : M A) (k : A -> M B) :
  makes_only C c -> (forall a, makes_only C (k a)) -> makes_only C (bind c k).
Proof.
  intros Hc Hk w. unfold bind. destruct (Hc w) as [new1 [Heq1 Hall1]].
  destruct (c w) as [[a | code |] w1]; cbn [snd] in *.
  - destruct (Hk a w1) as [new2 [Heq2 Hall2]].
    exists (new2 ++ new1). split.
    + rewrite Heq2, Heq1. apply app_assoc.
    + apply Forall_app. split; assumption.
  - exists new1. split; assumption.
  - exists new1. split; assumption.
Qed.

Lemma makes_only_quiet {A : Type} (C : call -> Prop) (c : M A) :
  (forall w, calls (snd (c w)) = calls w) -> makes_only C c.
Proof.
  intros Hc w. exists []. split; [apply Hc | constructor].
Qed.

Lemma makes_only_one {A : Type} (C : call -> Prop) (c : M A) (entry : World -> call) :
  (forall w, calls (snd (c w)) = entry w :: calls w) ->
  (forall w, C (entry w)) ->
  makes_only C c.
Proof.
  intros Hc HC w. exists [entry w]. split; [apply Hc |].
  constructor; [apply HC | constructor].
Qed.

Lemma makes_only_weaken {A : Type} (C D : call -> Prop) (c : M A) :
  (forall x, C x -> D x) -> makes_only C c -> makes_only D c.
Proof.
  intros HCD Hc w. destruct (Hc w) as [new [Heq Hall]].
  exists new. split; [exact Heq |].
  eapply Forall_impl; [exact HCD | exact Hall].
Qed.

Lemma makes_only_log (C : call -> Prop) format args :
  makes_only C (log_Printf format args).
Proof. apply makes_only_quiet. reflexivity. Qed.

Lemma makes_only_logMemoryUsage (C : call -> Prop) operation :
  makes_only C (logMemoryUsage operation).
Proof. apply makes_only_quiet. reflexivity. Qed.

Lemma makes_only_exit {A : Type} (C : call -> Prop) (code : Z) :
  makes_only C (@os_Exit A code).
Proof. apply makes_only_quiet. reflexivity. Qed.

Lemma makes_only_panic {A : Type} (C : call -> Prop) : makes_only C (@panic A).
Proof. apply makes_only_quiet. reflexivity. Qed.

Lemma makes_only_GC (C : call -> Prop) : C RuntimeGC -> makes_only C runtime_GC.
Proof.
  intros HC. apply makes_only_one with (entry := fun _ => RuntimeGC);
    [reflexivity | intros; exact HC].
Qed.

Lemma makes_only_Fetch (C : call -> Prop) env gitRepo o :
  (forall g res, C (RepoFetch g o res)) -> makes_only C (Fetch_ env gitRepo o).
Proof.
  intros HC. destruct gitRepo as [g |]; [| apply makes_only_panic].
  apply makes_only_one
    with (entry := fun w => RepoFetch g o (repo_Fetch env (calls w) g o));
    [reflexivity | intros; apply HC].
Qed.

Lemma makes_only_PlainClone (C : call -> Prop) env path b o :
  (forall res, C (PlainClone path b o res)) ->
  makes_only C (PlainClone_ env path b o).
Proof.
  intros HC.
  apply makes_only_one
    with (entry := fun w => PlainClone path b o (git_PlainClone env (calls w) path b o));
    [reflexivity | intros; apply HC].
Qed.

Lemma makes_only_PlainOpen (C : call -> Prop) env path :
  (forall res, C (PlainOpen path res)) -> makes_only C (PlainOpen_ env path).
Proof.
  intros HC.
  apply makes_only_one
    with (entry := fun w => PlainOpen path (git_PlainOpen env (calls w) path));
    [reflexivity | intros; apply HC].
Qed.

Lemma makes_only_Config (C : call -> Prop) env g :
  (forall res, C (RepoConfig g res)) -> makes_only C (Config_ env g).
Proof.
  intros HC.
  apply makes_only_one
    with (entry := fun w => RepoConfig g (repo_Config env (calls w) g));
    [reflexivity | intros; apply HC].
Qed.

Lemma makes_only_Worktree (C : call -> Prop) env g :
  (forall res, C (RepoWorktree g res)) -> makes_only C (Worktree_ env g).
Proof.
  intros HC.
  apply makes_only_one
    with (entry := fun w => RepoWorktree g (repo_Worktree env (calls w) g));
    [reflexivity | intros; apply HC].
Qed.

Lemma makes_only_Pull (C : call -> Prop) env wt o :
  (forall res, C (WorktreePull wt o res)) -> makes_only C (Pull_ env wt o).
Proof.
  intros HC.
  apply makes_only_one
    with (entry := fun w => WorktreePull wt o (worktree_Pull env (calls w) wt o));
    [reflexivity | intros; apply HC].
Qed.

Lemma makes_only_MkdirAll (C : call -> Prop) env path :
  (forall res, C (MkdirAll path res)) -> makes_only C (MkdirAll_ env path).
Proof.
  intros HC.
  apply makes_only_one
    with (entry := fun w => MkdirAll path (os_MkdirAll env (calls w) path));
    [reflexivity | intros; apply HC].
Qed.

Lemma makes_only_Now (C : call -> Prop) env :
  (forall t, C (TimeNow t)) -> makes_only C (Now_ env).
Proof.
  intros HC.
  apply makes_only_one with (entry := fun w => TimeNow (time_Now env (calls w)));
    [reflexivity | intros; apply HC].
Qed.

(** One step of a proof that a computation makes only calls in [C]:
    through binds and branches down to the primitive calls, whose
    entries are checked against [C] by computation. *)
Ltac makes_only_step :=
  match goal with
  | |- makes_only _ (bind _ _) => apply makes_only_bind; [| intros ?]
  | |- makes_only _ (ret _) => apply makes_only_ret
  | |- makes_only _ (log_Printf _ _) => apply makes_only_log
  | |- makes_only _ (logMemoryUsage _) => apply makes_only_logMemoryUsage
  | |- makes_only _ (os_Exit _) => apply makes_only_exit
  | |- makes_only _ panic => apply makes_only_panic
  | |- makes_only _ runtime_GC => apply makes_only_GC; exact I
  | |- makes_only _ (Fetch_ _ _ _) =>
      apply makes_only_Fetch; intros; cbn; auto
  | |- makes_only _ (PlainClone_ _ _ _ _) =>
      apply makes_only_PlainClone; intros; cbn; auto
  | |- makes_only _ (PlainOpen_ _ _) =>
      apply makes_only_PlainOpen; intros; cbn; auto
  | |- makes_only _ (Config_ _ _) => apply makes_only_Config; intros; exact I
  | |- makes_only _ (Worktree_ _ _) => apply makes_only_Worktree; intros; exact I
  | |- makes_only _ (Pull_ _ _ _) => apply makes_only_Pull; intros; cbn; auto
  | |- makes_only _ (MkdirAll_ _ _) => apply makes_only_MkdirAll; intros; exact I
  | |- makes_only _ (Now_ _) => apply makes_only_Now; intros; exact I
  | |- makes_only _ (if ?b then _ else _) => destruct b eqn:?
  | |- makes_only _ (match ?x with _ => _ end) => destruct x eqn:?
  end.

Lemma makes_only_fetchAllRefs env r path bare gitRepo :
  makes_only (sync_call r path bare)
    (fetchAllRefs env r gitRepo (url_auth (GitURL r))).
Proof. unfold fetchAllRefs. repeat makes_only_step. Qed.

Lemma makes_only_CloneInto env r path bare :
  makes_only (sync_call r path bare) (CloneInto env r path bare).
Proof.
  pose proof (makes_only_fetchAllRefs env r path bare) as Hrefresh.
  unfold CloneInto, clone_or_update, update_existing, isBare, after_clone,
    refresh_other_refs, classify_refresh, forceGC.
  repeat first [apply Hrefresh | makes_only_step].
Qed.

(** X1: every call [CloneInto] makes is a go-git call for this
    repository and path (or a garbage collection): the clone is the
    mirror clone with the credentials of the URL, every pull carries the
    same credentials, and every fetch carries them and is forced.
    [CloneInto] creates no directory, reads no clock and sends no
    notification. *)
Theorem CloneInto_makes_only_sync_calls env r path bare :
  makes_only (sync_call r path bare) (CloneInto env r path bare).
Proof. exact (makes_only_CloneInto env r path bare). Qed.

(** ** The notifier *)

(** X2: [SendSlackNotification] always returns (it neither exits nor
    panics), writes no log line, and adds to the history nothing when
    the URL is empty, otherwise the marshalling and, only if that
    succeeded, exactly one POST of the marshalled body to the URL; the
    error it returns is the one that belongs to the step that failed,
    and nil only after a POST answered with status 200. *)
Theorem SendSlackNotification_trace env url (b : BackupResult) (w : World) :
  exists err new,
    SendSlackNotification env url b w =
      (Val err, {| calls := new ++ calls w; logs := logs w |})
    /\ notification_trace url b new err.
Proof.
  destruct w as [h l].
  destruct (String.eqb_spec url "") as [Hurl | Hurl].
  - exists (Some (ErrorString "Slack webhook URL is not configured")), [].
    subst url. split; [reflexivity |]. cbn. split; reflexivity.
  - assert (Hneq : (url =? "")%string = false)
      by (apply String.eqb_neq; exact Hurl).
    unfold SendSlackNotification, bind, Marshal_, Post_, record, StatusOK.
    rewrite Hneq. cbn [calls logs].
    destruct (json_Marshal env h b) as [body | e] eqn:Hmarshal.
    + cbn [calls logs].
      destruct (http_Post env (JsonMarshal b (inl body) :: h) url body)
        as [status | e] eqn:Hpost.
      * exists (if status =? 200
                then None
                else Some (ErrorString
                             ("Slack API returned status code: " ++ fmt_d status))).
        exists [HttpPost url body (inl status); JsonMarshal b (inl body)].
        split.
        -- destruct (status =? 200); reflexivity.
        -- cbn. repeat split; auto.
      * eexists. exists [HttpPost url body (inr e); JsonMarshal b (inl body)].
        split; [reflexivity |]. cbn. repeat split; auto.
    + eexists. exists [JsonMarshal b (inr e)].
      split; [reflexivity |]. cbn. repeat split; auto.
Qed.

(** ** Runs without a webhook *)

Lemma makes_only_for_range {X : Type} (C : call -> Prop)
    (body : Tally -> X -> M Tally) (xs : list X) :
  (forall t x, makes_only C (body t x)) ->
  forall t, makes_only C (for_range body xs t).
Proof.
  intros Hbody. induction xs as [| x rest IH]; intros t.
  - apply makes_only_ret.
  - cbn [for_range]. apply makes_only_bind; [apply Hbody | exact IH].
Qed.

Lemma makes_only_notify_unset (C : call -> Prop) env (A : Type)
    start count errs failed code :
  makes_only C (@notify_and_exit env A "" start count errs failed code).
Proof. unfold notify_and_exit. cbn [String.eqb negb]. repeat makes_only_step. Qed.

Lemma sync_call_not_notifier r path bare (c : call) :
  sync_call r path bare c -> not_notifier_call c.
Proof. destruct c; cbn; tauto. Qed.

Lemma makes_only_backup_repo_unset env fl start sourceName t r :
  makes_only not_notifier_call (backup_repo env fl "" start sourceName t r).
Proof.
  pose proof (fun path bare =>
                makes_only_weaken _ _ _ (sync_call_not_notifier r path bare)
                  (makes_only_CloneInto env r path bare)) as Hsync.
  pose proof (makes_only_notify_unset not_notifier_call env) as Hnotify.
  unfold backup_repo.
  repeat first [apply Hsync | apply Hnotify | makes_only_step].
Qed.

Lemma makes_only_backup_source_unset env fl start t s :
  makes_only not_notifier_call (backup_source env fl "" start t s).
Proof.
  pose proof (makes_only_notify_unset not_notifier_call env) as Hnotify.
  unfold backup_source.
  repeat first [apply Hnotify
               | apply makes_only_for_range; intros;
                 apply makes_only_backup_repo_unset
               | makes_only_step].
Qed.

(** X3: when neither the flag nor the environment variable gives a
    webhook URL, a run of [main] never marshals a summary and never
    posts anything, whatever the libraries answer: it makes no call to
    the notifier at all. *)
Theorem main_without_webhook_never_notifies env fl :
  webhook_of env fl = "" ->
  makes_only not_notifier_call (main env fl).
Proof.
  intros Hurl. unfold main, loadConfig, finish.
  fold (webhook_of env fl). rewrite Hurl. cbn [String.eqb negb].
  repeat first [apply makes_only_for_range; intros;
                apply makes_only_backup_source_unset
               | makes_only_step].
Qed.

Lemma main_without_webhook_never_notifies_witness :
  makes_only not_notifier_call (main sync_failure_env default_flags).
Proof.
  apply (main_without_webhook_never_notifies sync_failure_env default_flags).
  reflexivity.
Defined.

(** ** Runs that end before the first source *)

(** X4: with [-version], [main] logs the version and exits with status
    0 before the configuration is read: the history of library calls is
    left as it was. *)
Theorem main_version_exits_first env fl (w : World) :
  printVersion fl = true ->
  main env fl w =
    (Exit 0, {| calls := calls w; logs := version_logs env fl ++ logs w |}).
Proof.
  intros Hversion. unfold main, bind. cbn [log_Printf]. rewrite Hversion.
  reflexivity.
Qed.

Lemma main_version_exits_first_witness :
  main base_env
    {| configFilePath := "git-backup.yml"; targetPath := "backup";
       failAtEnd := false; bareClone := false; printVersion := true;
       enableInsecure := false; slackWebhook := "" |} init_world =
  (Exit 0, {| calls := [];
              logs := [Printf "Built %s (%s)" [ArgS "n/a"; ArgS "n/a"];
                       Printf "git-backup, version %s (%s-%s)"
                         [ArgS "dev"; ArgS "linux"; ArgS "amd64"];
                       Printf "inscure: %v" [ArgB false]] |}).
Proof.
  apply (main_version_exits_first base_env
           {| configFilePath := "git-backup.yml"; targetPath := "backup";
              failAtEnd := false; bareClone := false; printVersion := true;
              enableInsecure := false; slackWebhook := "" |} init_world).
  reflexivity.
Defined.

(** X5: when the configuration file cannot be loaded, [main] exits with
    status 1 without a single library call: no directory is created, no
    clock is read and nothing is sent to the webhook, even if one is
    configured. *)
Theorem main_config_failure_exits_1 env fl (w : World) (err : error) :
  printVersion fl = false ->
  gitbackup_LoadFile env (configFilePath fl) = inr err ->
  fst (main env fl w) = Exit 1
  /\ calls (snd (main env fl w)) = calls w.
Proof.
  intros Hversion Hload. unfold main, bind, loadConfig. cbn [log_Printf].
  rewrite Hversion, Hload. cbn [ret].
  destruct (os_IsNotExist env err); split; reflexivity.
Qed.

Lemma main_config_failure_exits_1_witness :
  fst (main (with_config (inr (ErrorString "yaml: line 3: mapping values"))
               base_env) webhook_flags init_world) = Exit 1
  /\ calls (snd (main (with_config (inr (ErrorString "yaml: line 3: mapping values"))
                         base_env) webhook_flags init_world)) = [].
Proof.
  apply (main_config_failure_exits_1
           (with_config (inr (ErrorString "yaml: line 3: mapping values")) base_env)
           webhook_flags init_world (ErrorString "yaml: line 3: mapping values"));
    reflexivity.
Defined.

(** X6: when the configuration loads but holds no source, [main] exits
    with status 111 without a single library call: no directory is
    created and no notification is sent, even if a webhook is
    configured. *)
Theorem main_no_sources_exits_111 env fl (w : World) :
  printVersion fl = false ->
  gitbackup_LoadFile env (configFilePath fl) = inl [] ->
  fst (main env fl w) = Exit 111
  /\ calls (snd (main env fl w)) = calls w.
Proof.
  intros Hversion Hload. unfold main, bind, loadConfig. cbn [log_Printf].
  rewrite Hversion, Hload. split; reflexivity.
Qed.

Lemma main_no_sources_exits_111_witness :
  fst (main base_env webhook_flags init_world) = Exit 111
  /\ calls (snd (main base_env webhook_flags init_world)) = [].
Proof.
  apply (main_no_sources_exits_111 base_env webhook_flags init_world);
    reflexivity.
Defined.

(** ** The exit statuses *)

Lemma exits_within_ret {A : Type} (S : Z -> Prop) (a : A) : exits_within S (ret a).
Proof. intros w code H. discriminate H. Qed.

Lemma exits_within_bind {A B : Type} (S : Z -> Prop) (c : M A) (k : A -> M B) :
  exits_within S c -> (forall a, exits_within S (k a)) ->
  exits_within S (bind c k).
Proof.
  intros Hc Hk w code. unfold bind. specialize (Hc w).
  destruct (c w) as [[a | code' |] w1]; cbn [fst] in *.
  - apply Hk.
  - intros H. injection H as <-. apply Hc. reflexivity.
  - discriminate.
Qed.

Lemma exits_within_returns {A : Type} (S : Z -> Prop) (c : M A) :
  (forall w, exists a, fst (c w) = Val a) -> exits_within S c.
Proof.
  intros Hc w code H. destruct (Hc w) as [a Ha]. rewrite Ha in H. discriminate H.
Qed.

Lemma exits_within_exit {A : Type} (S : Z -> Prop) (code : Z) :
  S code -> exits_within S (@os_Exit A code).
Proof. intros HS w code' H. injection H as <-. exact HS. Qed.

Lemma exits_within_panic {A : Type} (S : Z -> Prop) : exits_within S (@panic A).
Proof. intros w code H. discriminate H. Qed.

Lemma exits_within_Fetch (S : Z -> Prop) env gitRepo o :
  exits_within S (Fetch_ env gitRepo o).
Proof.
  destruct gitRepo; [| apply exits_within_panic].
  apply exits_within_returns. intros w. eexists. reflexivity.
Qed.

Lemma exits_within_weaken {A : Type} (S T : Z -> Prop) (c : M A) :
  (forall code, S code -> T code) -> exits_within S c -> exits_within T c.
Proof. intros HST Hc w code H. apply HST, (Hc w code H). Qed.

Ltac exits_within_step :=
  match goal with
  | |- exits_within _ (bind _ _) => apply exits_within_bind; [| intros ?]
  | |- exits_within _ (ret _) => apply exits_within_ret
  | |- exits_within _ panic => apply exits_within_panic
  | |- exits_within _ (Fetch_ _ _ _) => apply exits_within_Fetch
  | |- exits_within _ (os_Exit _) =>
      apply exits_within_exit; unfold main_status; tauto
  | |- exits_within _ (if ?b then _ else _) => destruct b
  | |- exits_within _ (match ?x with _ => _ end) => destruct x
  | |- exits_within _ _ =>
      apply exits_within_returns; intros ?; eexists; reflexivity
  end.

Lemma CloneInto_never_exits env r path bare :
  exits_within (fun _ => False) (CloneInto env r path bare).
Proof.
  unfold CloneInto, clone_or_update, update_existing, isBare, after_clone,
    refresh_other_refs, classify_refresh, forceGC, fetchAllRefs.
  repeat exits_within_step.
Qed.

Lemma SendSlackNotification_never_exits (S : Z -> Prop) env url b :
  exits_within S (SendSlackNotification env url b).
Proof.
  apply exits_within_returns. intros w. apply SendSlackNotification_returns.
Qed.

Lemma exits_within_for_range {X : Type} (S : Z -> Prop)
    (body : Tally -> X -> M Tally) (xs : list X) :
  (forall t x, exits_within S (body t x)) ->
  forall t, exits_within S (for_range body xs t).
Proof.
  intros Hbody. induction xs as [| x rest IH]; intros t.
  - apply exits_within_ret.
  - cbn [for_range]. apply exits_within_bind; [apply Hbody | exact IH].
Qed.

Lemma backup_repo_exit_status env fl url start sourceName t r :
  exits_within main_status (backup_repo env fl url start sourceName t r).
Proof.
  pose proof (fun path bare =>
                exits_within_weaken _ main_status _
                  (fun code (H : False) => match H with end)
                  (CloneInto_never_exits env r path bare)) as Hsync.
  pose proof (SendSlackNotification_never_exits main_status env) as Hsend.
  unfold backup_repo, notify_and_exit.
  repeat first [apply Hsync | apply Hsend | exits_within_step].
Qed.

Lemma backup_source_exit_status env fl url start t s :
  exits_within main_status (backup_source env fl url start t s).
Proof.
  pose proof (SendSlackNotification_never_exits main_status env) as Hsend.
  unfold backup_source, notify_and_exit.
  repeat first [apply Hsend
               | apply exits_within_for_range; intros;
                 apply backup_repo_exit_status
               | exits_within_step].
Qed.

(** X7: whatever the libraries answer, [main] ends the process with
    [os.Exit] only with one of the statuses 0, 1, 100, 110 and 111, and
    [CloneInto] never ends the process by itself. *)
Theorem main_exit_statuses env fl r path bare :
  exits_within main_status (main env fl)
  /\ exits_within (fun _ => False) (CloneInto env r path bare).
Proof.
  split; [| apply CloneInto_never_exits].
  pose proof (SendSlackNotification_never_exits main_status env) as Hsend.
  unfold main, loadConfig, finish.
  repeat first [apply Hsend
               | apply exits_within_for_range; intros;
                 apply backup_source_exit_status
               | exits_within_step].
Qed.

(** ** Summaries along a run *)

Lemma spec_ret {A : Type} P (a : A) (Q : A -> list BackupResult -> Prop) X :
  (forall l, P l -> Q a l) -> run_spec P (ret a) Q X.
Proof. intros H w Hw. cbn. apply H, Hw. Qed.

Lemma spec_bind {A B : Type} P (c : M A) (k : A -> M B) Q R X :
  run_spec P c Q X -> (forall a, run_spec (Q a) (k a) R X) ->
  run_spec P (bind c k) R X.
Proof.
  intros Hc Hk w Hw. unfold bind. specialize (Hc w Hw).
  destruct (c w) as [[a | code |] w1]; [apply (Hk a w1 Hc) | exact Hc | exact Hc].
Qed.

Lemma spec_conseq {A : Type} (P P' : list BackupResult -> Prop) (c : M A)
    (Q Q' : A -> list BackupResult -> Prop) X :
  run_spec P c Q X ->
  (forall l, P' l -> P l) -> (forall a l, Q a l -> Q' a l) ->
  run_spec P' c Q' X.
Proof.
  intros Hc HP HQ w Hw. specialize (Hc w (HP _ Hw)).
  destruct (c w) as [[a | code |] w1]; [apply HQ, Hc | exact Hc | exact Hc].
Qed.

Lemma spec_returns {A : Type} P (c : M A) X :
  silent c -> (forall w, exists a, fst (c w) = Val a) ->
  run_spec P c (fun _ => P) X.
Proof.
  intros Hsilent Hret w Hw. specialize (Hsilent w). destruct (Hret w) as [a Ha].
  destruct (c w) as [o w1]. cbn [fst snd] in *. subst o.
  rewrite Hsilent. exact Hw.
Qed.

Lemma spec_exit {A : Type} P (code : Z) (Q : A -> list BackupResult -> Prop)
    (X : option Z -> list BackupResult -> Prop) :
  (forall l, P l -> X (Some code) l) -> run_spec P (os_Exit code) Q X.
Proof. intros H w Hw. cbn. apply H, Hw. Qed.

Lemma spec_log P format args X :
  run_spec P (log_Printf format args) (fun _ => P) X.
Proof.
  apply spec_returns; [apply silent_log | intros w; eexists; reflexivity].
Qed.

Lemma spec_Now P env X : run_spec P (Now_ env) (fun _ => P) X.
Proof.
  apply spec_returns; [intros w; reflexivity | intros w; eexists; reflexivity].
Qed.

Lemma spec_MkdirAll P env path X : run_spec P (MkdirAll_ env path) (fun _ => P) X.
Proof.
  apply spec_returns; [apply silent_MkdirAll | intros w; eexists; reflexivity].
Qed.

Lemma spec_CloneInto P env r path bare
    (X : option Z -> list BackupResult -> Prop) :
  (forall l, P l -> X None l) ->
  run_spec P (CloneInto env r path bare) (fun _ => P) X.
Proof.
  intros HX w Hw.
  pose proof (silent_CloneInto env r path bare w) as Hsilent.
  pose proof (CloneInto_never_exits env r path bare w) as Hexit.
  destruct (CloneInto env r path bare w) as [[err | code |] w1];
    cbn [fst snd] in *; rewrite Hsilent.
  - exact Hw.
  - destruct (Hexit code eq_refl).
  - apply HX, Hw.
Qed.

Lemma SendSlackNotification_summaries env url b (w : World) :
  summaries (calls (snd (SendSlackNotification env url b w))) =
    if (url =? "")%string then summaries (calls w) else b :: summaries (calls w).
Proof.
  unfold SendSlackNotification, bind, Marshal_, Post_.
  destruct (url =? "")%string; cbn; [reflexivity |].
  destruct (json_Marshal env (calls w) b); cbn; [| reflexivity].
  destruct (http_Post env _ url p); cbn; [| reflexivity].
  destruct (negb (z =? StatusOK)); reflexivity.
Qed.

Lemma spec_Send P env url b (Q : list BackupResult -> Prop) X :
  (forall l, P l -> Q (if (url =? "")%string then l else b :: l)) ->
  run_spec P (SendSlackNotification env url b) (fun _ => Q) X.
Proof.
  intros H w Hw.
  pose proof (SendSlackNotification_summaries env url b w) as Hsum.
  destruct (SendSlackNotification_returns env url b w) as [err Herr].
  destruct (SendSlackNotification env url b w) as [o w1].
  cbn [fst snd] in *. subst o. rewrite Hsum.
  specialize (H _ Hw). destruct (url =? "")%string; exact H.
Qed.

Lemma spec_for_range {X0 : Type} (P : list BackupResult -> Prop)
    (T : Tally -> Prop) (body : Tally -> X0 -> M Tally) (xs : list X0) X :
  (forall t x, T t -> run_spec P (body t x) (fun t' l => T t' /\ P l) X) ->
  forall t, T t -> run_spec P (for_range body xs t) (fun t' l => T t' /\ P l) X.
Proof.
  intros Hbody. induction xs as [| x rest IH]; intros t Ht.
  - apply spec_ret. intros l Hl. split; assumption.
  - cbn [for_range]. eapply spec_bind; [apply Hbody, Ht |].
    intros t'. intros w [Ht' Hw]. apply (IH t' Ht' w Hw).
Qed.

(** ** How many summaries a run hands over *)

Section SummaryCount.

Variables (env : Env) (fl : Flags) (url : string) (start : Z).

Notation "'none_yet'" := (fun l : list BackupResult => l = []).

Lemma count_notify_and_exit (A : Type) count errs failed code
    (Q : A -> list BackupResult -> Prop) :
  run_spec none_yet (@notify_and_exit env A url start count errs failed code)
    Q (ended_with url).
Proof.
  unfold notify_and_exit.
  apply spec_bind
    with (Q := fun _ l => List.length l = summaries_due url).
  - destruct (url =? "")%string eqn:Hurl; cbn [negb].
    + apply spec_ret. intros l ->. unfold summaries_due. rewrite Hurl. reflexivity.
    + eapply spec_bind; [apply spec_Now | intros now1; cbn beta].
      eapply spec_bind; [apply spec_Now | intros now2; cbn beta].
      eapply spec_bind; [| intros err; apply spec_ret; intros l Hl; exact Hl].
      apply spec_Send. intros l ->. unfold summaries_due. rewrite Hurl.
      reflexivity.
  - intros ?; cbn beta. apply spec_exit. intros l Hl. exact Hl.
Qed.

Lemma count_backup_repo sourceName (t : Tally) (r : Repository) :
  run_spec none_yet (backup_repo env fl url start sourceName t r)
    (fun _ l => True /\ l = []) (ended_with url).
Proof.
  unfold backup_repo.
  eapply spec_bind; [apply spec_log | intros ?; cbn beta].
  eapply spec_bind; [apply spec_MkdirAll | intros err; cbn beta].
  destruct err as [e |].
  - eapply spec_bind; [apply spec_log | intros ?; cbn beta].
    eapply spec_bind with (Q := fun _ l => l = []).
    + destruct (negb (failAtEnd fl)); [apply count_notify_and_exit |].
      apply spec_ret. auto.
    + intros ?; cbn beta. apply spec_ret. auto.
  - eapply spec_bind; [apply spec_CloneInto; intros l Hl; exact Hl | intros err; cbn beta].
    eapply spec_bind with (Q := fun _ l => l = []).
    + destruct err as [e |]; [| apply spec_ret; auto].
      eapply spec_bind; [apply spec_log | intros ?; cbn beta].
      eapply spec_bind with (Q := fun _ l => l = []).
      * destruct (negb (failAtEnd fl)); [apply count_notify_and_exit |].
        apply spec_ret. auto.
      * intros ?; cbn beta. apply spec_ret. auto.
    + intros t'. apply spec_ret. auto.
Qed.

Lemma count_backup_source (t : Tally) (s : RepositorySource) :
  run_spec none_yet (backup_source env fl url start t s)
    (fun _ l => True /\ l = []) (ended_with url).
Proof.
  unfold backup_source.
  eapply spec_bind; [apply spec_log | intros ?; cbn beta].
  destruct (Test s) as [e |].
  - eapply spec_bind; [apply spec_log | intros ?; cbn beta]. apply count_notify_and_exit.
  - destruct (ListRepositories s) as [repos [e |]].
    + eapply spec_bind; [apply spec_log | intros ?; cbn beta]. apply count_notify_and_exit.
    + apply (spec_for_range none_yet (fun _ => True)); [| exact I].
      intros t0 r _. apply count_backup_repo.
Qed.

Lemma count_finish (t : Tally) :
  run_spec none_yet (finish env url start t)
    (fun _ l => List.length l = summaries_due url) (ended_with url).
Proof.
  unfold finish.
  eapply spec_bind; [apply spec_Now | intros backupEnd; cbn beta].
  eapply spec_bind; [apply spec_log | intros ?; cbn beta].
  eapply spec_bind with (Q := fun _ l => List.length l = summaries_due url).
  - destruct (url =? "")%string eqn:Hurl; cbn [negb].
    + apply spec_conseq with (P := none_yet) (Q := fun _ => none_yet);
        [apply spec_log | auto |].
      cbn beta. intros _ l ->. unfold summaries_due. rewrite Hurl. reflexivity.
    + eapply spec_bind
        with (Q := fun _ l => List.length l = summaries_due url).
      * apply spec_Send. intros l ->. unfold summaries_due. rewrite Hurl.
        reflexivity.
      * intros err. destruct err; apply spec_log.
  - intros ?; cbn beta. destruct (errors t >? 0).
    + apply spec_exit. intros l Hl. exact Hl.
    + apply spec_ret. auto.
Qed.

End SummaryCount.

(** The run from the first source on. *)
Lemma count_sources env fl (sources : list RepositorySource) (w : World) :
  summaries (calls w) = [] ->
  let url := webhook_of env fl in
  let run :=
    bind (Now_ env)
      (fun backupStart =>
         bind (for_range (backup_source env fl url backupStart) sources
                 {| repoCount := 0; errors := 0; failedRepos := [] |})
           (fun t => finish env url backupStart t)) w in
  match fst run with
  | Panic => summaries (calls (snd run)) = []
  | _ => List.length (summaries (calls (snd run))) = summaries_due url
  end.
Proof.
  intros Hw url run.
  assert (Hspec : run_spec (fun l => l = [])
            (bind (Now_ env)
               (fun backupStart =>
                  bind (for_range (backup_source env fl url backupStart) sources
                          {| repoCount := 0; errors := 0; failedRepos := [] |})
                    (fun t => finish env url backupStart t)))
            (fun _ l => List.length l = summaries_due url) (ended_with url)).
  { eapply spec_bind; [apply spec_Now | intros backupStart; cbn beta].
    eapply spec_bind.
    - apply (spec_for_range (fun l => l = []) (fun _ => True)); [| exact I].
      intros t s _. apply count_backup_source.
    - intros t. cbn beta.
      apply spec_conseq
        with (P := fun l : list BackupResult => l = [])
             (Q := fun _ l => List.length l = summaries_due url);
        [apply count_finish | | auto].
      intros l [_ Hl]. exact Hl. }
  specialize (Hspec w Hw). subst run.
  destruct (bind _ _ w) as [[[] | code |] w1]; cbn [fst snd]; exact Hspec.
Qed.

(** X8: once the configuration has given at least one source, a run of
    [main] that is not cut short by a panic hands exactly one summary to
    the notifier when a webhook is configured, and none when it is not;
    a run cut short by a panic hands over none. *)
Theorem main_hands_over_one_summary env fl (s : RepositorySource)
    (rest : list RepositorySource) :
  printVersion fl = false ->
  gitbackup_LoadFile env (configFilePath fl) = inl (s :: rest) ->
  match fst (main env fl init_world) with
  | Panic => summaries (calls (snd (main env fl init_world))) = []
  | _ => List.length (summaries (calls (snd (main env fl init_world))))
         = if (webhook_of env fl =? "")%string then 0%nat else 1%nat
  end.
Proof.
  intros Hversion Hload.
  assert (Hmain : forall w,
            main env fl w =
            bind (Now_ env)
              (fun backupStart =>
                 bind (for_range (backup_source env fl (webhook_of env fl)
                                    backupStart) (s :: rest)
                         {| repoCount := 0; errors := 0; failedRepos := [] |})
                   (fun t => finish env (webhook_of env fl) backupStart t))
              {| calls := calls w;
                 logs := Printf "inscure: %v" [ArgB (enableInsecure fl)]
                         :: logs w |}).
  { intros w. unfold main, loadConfig. unfold bind at 1. cbn [log_Printf].
    rewrite Hversion. unfold bind at 1. cbn [ret]. unfold bind at 1.
    rewrite Hload. cbn [ret]. unfold bind at 1. cbn [List.length Nat.eqb ret].
    reflexivity. }
  rewrite Hmain.
  apply (count_sources env fl (s :: rest)). reflexivity.
Qed.

Lemma main_hands_over_one_summary_witness :
  match fst (main sync_failure_env webhook_flags init_world) with
  | Panic => summaries (calls (snd (main sync_failure_env webhook_flags
                                      init_world))) = []
  | _ => List.length (summaries (calls (snd (main sync_failure_env webhook_flags
                                               init_world))))
         = if (webhook_of sync_failure_env webhook_flags =? "")%string
           then 0%nat else 1%nat
  end.
Proof.
  apply (main_hands_over_one_summary sync_failure_env webhook_flags
           one_repo_source []); reflexivity.
Defined.

(** ** The shape of every summary *)

Section SummaryShape.

Variables (env : Env) (fl : Flags).

(** [I] is the shape wanted of every summary, [T k] what is known of the
    counters after [k] repositories, [N] a bound on the number of
    repositories of the run. *)
Variable I : BackupResult -> Prop.
Variable T : nat -> Tally -> Prop.
Variable N : nat.

Hypothesis fatal_source :
  forall start msg now1 now2, I (fatal_summary start 0 1 [msg] now1 now2).

Hypothesis fatal_repo :
  forall k t start note now1 now2 count,
    T k t -> (k < N)%nat -> failAtEnd fl = false ->
    I (fatal_summary start count (incr (errors t)) (failedRepos t ++ [note])
         now1 now2).

Hypothesis step_failed :
  forall k t note count,
    T k t -> (k < N)%nat -> failAtEnd fl = true ->
    T (S k) {| repoCount := count;
               errors := incr (errors t);
               failedRepos := failedRepos t ++ [note] |}.

Hypothesis step_counted :
  forall k t count,
    T k t -> (k < N)%nat ->
    T (S k) {| repoCount := count; errors := errors t; failedRepos := failedRepos t |}.

Hypothesis step_dir_failed_only :
  forall k t, T (S k) t ->
    T (S k) {| repoCount := incr (repoCount t);
               errors := errors t;
               failedRepos := failedRepos t |}.

Hypothesis final :
  forall k t start backupEnd,
    T k t ->
    I {| RepoCount := repoCount t;
         ErrorCount := errors t;
         Duration := time_Sub backupEnd start;
         FailedRepos := failedRepos t;
         StartTime := start;
         EndTime := backupEnd;
         Success := errors t =? 0 |}.

Notation "'shaped'" := (Forall I).

Lemma shape_Send url b :
  I b -> run_spec shaped (SendSlackNotification env url b) (fun _ => shaped)
           (fun _ => shaped).
Proof.
  intros Hb. apply spec_Send. intros l Hl.
  destruct (url =? "")%string; [exact Hl | constructor; assumption].
Qed.

Lemma shape_notify_and_exit (A : Type) url start count errs failed code
    (Q : A -> list BackupResult -> Prop) :
  (forall now1 now2, I (fatal_summary start count errs failed now1 now2)) ->
  run_spec shaped (@notify_and_exit env A url start count errs failed code)
    Q (fun _ => shaped).
Proof.
  intros Hb. unfold notify_and_exit.
  apply spec_bind with (Q := fun _ => shaped).
  - destruct (negb (url =? "")%string); [| apply spec_ret; auto].
    eapply spec_bind; [apply spec_Now | intros now1; cbn beta].
    eapply spec_bind; [apply spec_Now | intros now2; cbn beta].
    eapply spec_bind; [apply shape_Send, Hb | intros ?; cbn beta].
    apply spec_ret. auto.
  - intros ?; cbn beta. apply spec_exit. auto.
Qed.

Lemma shape_backup_repo url start sourceName (k : nat) (t : Tally) (r : Repository) :
  T k t -> (k < N)%nat ->
  run_spec shaped (backup_repo env fl url start sourceName t r)
    (fun t' l => T (S k) t' /\ shaped l) (fun _ => shaped).
Proof.
  intros Ht Hk. unfold backup_repo.
  eapply spec_bind; [apply spec_log | intros ?; cbn beta].
  eapply spec_bind; [apply spec_MkdirAll | intros err; cbn beta].
  destruct err as [e |].
  - eapply spec_bind; [apply spec_log | intros ?; cbn beta].
    apply spec_bind with (Q := fun _ l => failAtEnd fl = true /\ shaped l).
    + destruct (failAtEnd fl) eqn:Hmode; cbn [negb].
      * apply spec_ret. auto.
      * apply shape_notify_and_exit. intros now1 now2.
        apply (fatal_repo k); auto.
    + intros ?; cbn beta. apply spec_ret. intros l [Hmode Hl].
      split; [| exact Hl]. apply step_failed; assumption.
  - eapply spec_bind; [apply spec_CloneInto; auto | intros err; cbn beta].
    apply spec_bind with (Q := fun t' l => T (S k) t' /\ shaped l).
    + destruct err as [e |].
      * eapply spec_bind; [apply spec_log | intros ?; cbn beta].
        apply spec_bind with (Q := fun _ l => failAtEnd fl = true /\ shaped l).
        -- destruct (failAtEnd fl) eqn:Hmode; cbn [negb].
           ++ apply spec_ret. auto.
           ++ apply shape_notify_and_exit. intros now1 now2.
              apply (fatal_repo k); auto.
        -- intros ?; cbn beta. apply spec_ret. intros l [Hmode Hl].
           split; [| exact Hl]. apply step_failed; assumption.
      * apply spec_ret. intros l Hl. split; [| exact Hl].
        destruct t as [rc ec fr]. apply (step_counted k _ rc Ht Hk).
    + intros t'; cbn beta. apply spec_ret. intros l [Ht' Hl].
      split; [| exact Hl]. apply step_dir_failed_only. exact Ht'.
Qed.

Lemma shape_repo_loop url start sourceName (repos : list Repository) :
  forall (k : nat) (t : Tally),
  T k t -> (k + List.length repos <= N)%nat ->
  run_spec shaped (for_range (backup_repo env fl url start sourceName) repos t)
    (fun t' l => T (k + List.length repos) t' /\ shaped l) (fun _ => shaped).
Proof.
  induction repos as [| r rest IH]; intros k t Ht Hk.
  - apply spec_ret. intros l Hl. cbn [List.length]. rewrite Nat.add_0_r. auto.
  - cbn [for_range]. cbn [List.length] in *.
    eapply spec_bind; [apply (shape_backup_repo _ _ _ k); [exact Ht | lia] |].
    intros t'; cbn beta. intros w [Ht' Hw].
    replace (k + S (List.length rest))%nat with (S k + List.length rest)%nat by lia.
    apply (IH (S k) t' Ht'); [lia | exact Hw].
Qed.

Lemma shape_backup_source url start (k : nat) (t : Tally) (s : RepositorySource) :
  T k t -> (k + List.length (fst (ListRepositories s)) <= N)%nat ->
  run_spec shaped (backup_source env fl url start t s)
    (fun t' l => T (k + List.length (fst (ListRepositories s))) t' /\ shaped l)
    (fun _ => shaped).
Proof.
  intros Ht Hk. unfold backup_source.
  eapply spec_bind; [apply spec_log | intros ?; cbn beta].
  destruct (Test s) as [e |].
  - eapply spec_bind; [apply spec_log | intros ?; cbn beta].
    apply shape_notify_and_exit. intros. apply fatal_source.
  - destruct (ListRepositories s) as [repos [e |]]; cbn [fst] in *.
    + eapply spec_bind; [apply spec_log | intros ?; cbn beta].
      apply shape_notify_and_exit. intros. apply fatal_source.
    + apply shape_repo_loop; assumption.
Qed.

Lemma shape_source_loop url start (sources : list RepositorySource) :
  forall (k : nat) (t : Tally),
  T k t -> (k + List.length (listed sources) <= N)%nat ->
  run_spec shaped (for_range (backup_source env fl url start) sources t)
    (fun t' l => T (k + List.length (listed sources)) t' /\ shaped l)
    (fun _ => shaped).
Proof.
  induction sources as [| s rest IH]; intros k t Ht Hk.
  - apply spec_ret. intros l Hl. cbn. rewrite Nat.add_0_r. auto.
  - cbn [for_range]. rewrite listed_cons in *.
    eapply spec_bind; [apply (shape_backup_source _ _ k); [exact Ht | lia] |].
    intros t'; cbn beta. intros w [Ht' Hw].
    rewrite Nat.add_assoc. apply (IH _ t' Ht'); [lia | exact Hw].
Qed.

Lemma shape_finish url start (k : nat) (t : Tally) :
  T k t ->
  run_spec shaped (finish env url start t) (fun _ => shaped) (fun _ => shaped).
Proof.
  intros Ht. unfold finish.
  eapply spec_bind; [apply spec_Now | intros backupEnd; cbn beta].
  eapply spec_bind; [apply spec_log | intros ?; cbn beta].
  apply spec_bind with (Q := fun _ => shaped).
  - destruct (negb (url =? "")%string); [| apply spec_log].
    eapply spec_bind; [apply shape_Send, (final k), Ht | intros err; cbn beta].
    destruct err; apply spec_log.
  - intros ?; cbn beta. destruct (errors t >? 0).
    + apply spec_exit. auto.
    + apply spec_ret. auto.
Qed.

Lemma shape_main :
  (forall sources,
     gitbackup_LoadFile env (configFilePath fl) = inl sources ->
     (List.length (listed sources) <= N)%nat) ->
  T 0 {| repoCount := 0; errors := 0; failedRepos := [] |} ->
  run_spec shaped (main env fl) (fun _ => shaped) (fun _ => shaped).
Proof.
  intros Hmax Hstart. unfold main.
  eapply spec_bind; [apply spec_log | intros ?; cbn beta].
  apply spec_bind with (Q := fun _ => shaped).
  { destruct (printVersion fl); [| apply spec_ret; auto].
    eapply spec_bind; [apply spec_log | intros ?; cbn beta].
    eapply spec_bind; [apply spec_log | intros ?; cbn beta].
    apply spec_exit. auto. }
  intros ?; cbn beta.
  apply spec_bind
    with (Q := fun sources l => (List.length (listed sources) <= N)%nat /\ shaped l).
  { unfold loadConfig.
    destruct (gitbackup_LoadFile env (configFilePath fl)) as [sources | err].
    - apply spec_ret. intros l Hl. split; [apply Hmax; reflexivity | exact Hl].
    - destruct (os_IsNotExist env err);
        (eapply spec_bind; [apply spec_log | intros ?; cbn beta];
         apply spec_exit; auto). }
  intros sources; cbn beta. intros w [Hsources Hw]. revert w Hw.
  change (run_spec shaped
            (bind (if (List.length sources =? 0)%nat
                   then bind (log_Printf
                     "Found a config file at [%s] but detected no sources. Are you sure the file is properly formed?"
                                [ArgS (configFilePath fl)])
                          (fun _ => os_Exit 111)
                   else ret tt)
               (fun _ =>
                  bind (Now_ env)
                    (fun backupStart =>
                       bind (for_range
                               (backup_source env fl (webhook_of env fl) backupStart)
                               sources
                               {| repoCount := 0; errors := 0; failedRepos := [] |})
                         (fun t => finish env (webhook_of env fl) backupStart t))))
            (fun _ => shaped) (fun _ => shaped)).
  apply spec_bind with (Q := fun _ => shaped).
  { destruct (List.length sources =? 0)%nat; [| apply spec_ret; auto].
    eapply spec_bind; [apply spec_log | intros ?; cbn beta].
    apply spec_exit. auto. }
  intros ?; cbn beta.
  eapply spec_bind; [apply spec_Now | intros backupStart; cbn beta].
  eapply spec_bind;
    [apply (shape_source_loop _ _ sources 0%nat); [exact Hstart | lia] |].
  intros t; cbn beta. intros w [Ht Hw].
  apply (shape_finish _ _ _ t Ht w Hw).
Qed.

End SummaryShape.

Lemma incr_zero : incr 0 = 1.
Proof. vm_compute. reflexivity. Qed.

(** X9: without [-backup.fail-at-end], every summary handed to the
    notifier is either the summary of a run that stopped at its first
    failure, with [Success] false, [ErrorCount] 1 and exactly one entry
    in [FailedRepos], or the summary of a run without failure, with
    [Success] true, [ErrorCount] 0 and no entry. *)
Theorem fail_fast_summaries env fl (b : BackupResult) :
  failAtEnd fl = false ->
  In b (summaries (calls (snd (main env fl init_world)))) ->
  fail_fast_shape b.
Proof.
  intros Hmode Hin.
  pose proof (shape_main env fl fail_fast_shape
                (fun _ t => errors t = 0 /\ failedRepos t = [])
                (match gitbackup_LoadFile env (configFilePath fl) with
                 | inl sources => List.length (listed sources)
                 | inr _ => 0%nat
                 end)) as Hmain.
  assert (Hall : Forall fail_fast_shape
                   (summaries (calls (snd (main env fl init_world))))).
  { specialize (Hmain
      ltac:(intros; left; repeat split; reflexivity)
      ltac:(intros k t start note now1 now2 count [He Hf] _ _;
            left; cbn; rewrite He, Hf, incr_zero; repeat split; reflexivity)
      ltac:(intros; congruence)
      ltac:(intros k t count [He Hf] _; split; assumption)
      ltac:(intros k t [He Hf]; split; assumption)
      ltac:(intros k t start backupEnd [He Hf];
            right; cbn; rewrite He, Hf; repeat split; reflexivity)
      ltac:(intros sources Hload; rewrite Hload; lia)
      ltac:(split; reflexivity)
      init_world ltac:(constructor)).
    destruct (main env fl init_world) as [[[] | code |] w']; exact Hmain. }
  rewrite Forall_forall in Hall. apply Hall, Hin.
Qed.

Lemma fail_fast_summaries_witness :
  fail_fast_shape
    (hd sample_result
       (summaries (calls (snd (main sync_failure_env webhook_flags init_world))))).
Proof.
  apply (fail_fast_summaries sync_failure_env webhook_flags).
  - reflexivity.
  - vm_compute. left. reflexivity.
Defined.

Lemma main_flag_agrees env fl :
  (forall sources,
     gitbackup_LoadFile env (configFilePath fl) = inl sources ->
     Z.of_nat (List.length (listed sources)) <= max_int) ->
  Forall flag_agrees (summaries (calls (snd (main env fl init_world)))).
Proof.
  intros Hmax.
  pose proof (shape_main env fl flag_agrees
                (fun k t => tally_agrees t
                            /\ (List.length (failedRepos t) <= k)%nat)
                (Z.to_nat max_int)) as Hmain.
  assert (Hgrow : forall k t (note : string),
            tally_agrees t -> (List.length (failedRepos t) <= k)%nat ->
            (k < Z.to_nat max_int)%nat ->
            incr (errors t) = Z.of_nat (List.length (failedRepos t ++ [note]))
            /\ 0 < incr (errors t)).
  { intros k t note Ht Hlen Hk. unfold tally_agrees in Ht.
    rewrite incr_no_wrap by lia.
    rewrite length_app. cbn [List.length]. lia. }
  specialize (Hmain
    ltac:(intros; split; reflexivity)
    ltac:(intros k t start note now1 now2 count [Ht Hlen] Hk _;
          destruct (Hgrow k t note Ht Hlen Hk) as [Heq Hpos];
          split; [exact Heq |];
          cbn; symmetry; apply Z.eqb_neq; lia)
    ltac:(intros k t note count [Ht Hlen] Hk _;
          destruct (Hgrow k t note Ht Hlen Hk) as [Heq Hpos];
          split; [exact Heq |];
          cbn [failedRepos]; rewrite length_app; cbn [List.length]; lia)
    ltac:(intros k t count [Ht Hlen] _; split; [exact Ht | cbn; lia])
    ltac:(intros k t [Ht Hlen]; split; assumption)
    ltac:(intros k t start backupEnd [Ht Hlen]; split; [exact Ht | reflexivity])
    ltac:(intros sources Hload; specialize (Hmax sources Hload); lia)
    ltac:(split; [reflexivity | cbn; lia])
    init_world ltac:(constructor)).
  destruct (main env fl init_world) as [[[] | code |] w']; exact Hmain.
Qed.

(** X10: in a run of [main] whose sources list no more repositories
    than an [int] can count, every summary handed to the notifier has
    [Success] true exactly when [ErrorCount] is 0, which is exactly when
    [FailedRepos] is empty. *)
Theorem success_flag_agrees env fl (b : BackupResult) :
  (forall sources,
     gitbackup_LoadFile env (configFilePath fl) = inl sources ->
     Z.of_nat (List.length (listed sources)) <= max_int) ->
  In b (summaries (calls (snd (main env fl init_world)))) ->
  Success b = (ErrorCount b =? 0)
  /\ (Success b = true <-> FailedRepos b = []).
Proof.
  intros Hmax Hin.
  pose proof (main_flag_agrees env fl Hmax) as Hall.
  rewrite Forall_forall in Hall. destruct (Hall b Hin) as [Hcount Hflag].
  split; [exact Hflag |]. rewrite Hflag. unfold counts_agree in Hcount.
  rewrite Z.eqb_eq, Hcount. destruct (FailedRepos b); cbn [List.length].
  - split; reflexivity.
  - split; [lia | discriminate].
Qed.

Lemma success_flag_agrees_witness :
  let b := hd sample_result
             (summaries (calls (snd (main three_repo_env fail_at_end_flags
                                       init_world)))) in
  Success b = (ErrorCount b =? 0)
  /\ (Success b = true <-> FailedRepos b = []).
Proof.
  apply (success_flag_agrees three_repo_env fail_at_end_flags).
  - intros sources Hload. injection Hload as <-. vm_compute. discriminate.
  - vm_compute. left. reflexivity.
Defined.

(** ** Paths through [CloneInto] *)

(** X11: a clone error that is none of the three sentinels is returned
    as it is, and the clone attempt is the only call made: nothing is
    opened and nothing is fetched. *)
Theorem CloneInto_returns_clone_error env r path bare (w : World) (e : error) :
  snd (git_PlainClone env (calls w) path bare (clone_options r)) = Some e ->
  (forall s, Is e s = false) ->
  fst (CloneInto env r path bare w) = Val (Some e)
  /\ calls (snd (CloneInto env r path bare w)) =
       PlainClone path bare (clone_options r)
         (git_PlainClone env (calls w) path bare (clone_options r))
       :: calls w.
Proof.
  intros Hclone Hplain.
  unfold CloneInto, clone_or_update, bind. cbn.
  destruct (git_PlainClone env (calls w) path bare (clone_options r))
    as [gitRepo err].
  cbn in Hclone. subst err. cbn. rewrite Hplain. cbn.
  unfold after_clone. cbn. rewrite !Hplain. split; reflexivity.
Qed.

Lemma CloneInto_returns_clone_error_witness :
  fst (CloneInto sync_failure_env (repo_named "org/broken")
         "backup/forge/org/broken" false init_world) = Val (Some network_error)
  /\ calls (snd (CloneInto sync_failure_env (repo_named "org/broken")
                   "backup/forge/org/broken" false init_world)) =
       [PlainClone "backup/forge/org/broken" false
          (clone_options (repo_named "org/broken")) (None, Some network_error)].
Proof.
  apply (CloneInto_returns_clone_error sync_failure_env (repo_named "org/broken")
           "backup/forge/org/broken" false init_world network_error).
  - reflexivity.
  - intros s. reflexivity.
Defined.

(** X12: after a clone that succeeds, the ref refresh runs exactly
    once: the calls that follow the clone hold the branch fetch and the
    tag fetch, in this order, and at most the fallback tag fetch after
    them, and [CloneInto] returns the classified answer of the last of
    them. *)
Theorem CloneInto_fresh_clone_refreshes_once env r path bare (w : World) (g : repo) :
  git_PlainClone env (calls w) path bare (clone_options r) = (Some g, None) ->
  let auth := url_auth (GitURL r) in
  let cloned := PlainClone path bare (clone_options r) (Some g, None) :: calls w in
  exists new,
    calls (snd (CloneInto env r path bare w)) = new ++ cloned
    /\ (fetches new = [branch_fetch_options auth; tag_fetch_options auth]
        \/ fetches new = [branch_fetch_options auth; tag_fetch_options auth;
                          fallback_fetch_options auth])
    /\ fst (CloneInto env r path bare w) =
         Val (classified (refresh_answer env g auth cloned)).
Proof.
  intros Hclone auth cloned.
  assert (Hrun : CloneInto env r path bare w =
                 refresh_other_refs env r (Some g)
                   {| calls := cloned; logs := clone_logs r ++ logs w |}).
  { unfold CloneInto, clone_or_update, bind, PlainClone_, logMemoryUsage,
      log_Printf, ret.
    cbn [calls logs]. rewrite Hclone. cbn [errors_Is].
    unfold after_clone. cbn [errors_Is is_nil]. reflexivity. }
  rewrite Hrun, refresh_other_refs_run. cbn [calls logs fst snd].
  unfold after_refresh, after_fallback, after_tag, after_branch.
  fold auth.
  destruct (fetch_failed (tag_answer env g auth cloned)).
  - eexists [_; _; _; _; _]. split; [reflexivity |].
    split; [right; reflexivity | reflexivity].
  - eexists [_; _; _; _]. split; [reflexivity |].
    split; [left; reflexivity | reflexivity].
Qed.

Lemma CloneInto_fresh_clone_refreshes_once_witness :
  exists new,
    calls (snd (CloneInto base_env sample_repo "backup/forge/org/app" false
                  init_world)) =
      new ++ [PlainClone "backup/forge/org/app" false (clone_options sample_repo)
                (Some 1%nat, None)]
    /\ (fetches new = [branch_fetch_options sample_auth;
                       tag_fetch_options sample_auth]
        \/ fetches new = [branch_fetch_options sample_auth;
                          tag_fetch_options sample_auth;
                          fallback_fetch_options sample_auth])
    /\ fst (CloneInto base_env sample_repo "backup/forge/org/app" false init_world)
       = Val (classified
                (refresh_answer base_env 1%nat sample_auth
                   [PlainClone "backup/forge/org/app" false
                      (clone_options sample_repo) (Some 1%nat, None)])).
Proof.
  apply (CloneInto_fresh_clone_refreshes_once base_env sample_repo
           "backup/forge/org/app" false init_world 1%nat).
  reflexivity.
Defined.

(** X13: when the path is taken and the repository there cannot be
    opened, [CloneInto] returns the error of the opening (if it is none
    of the sentinels) after the clone attempt and the opening: nothing is
    fetched. *)
Theorem CloneInto_returns_open_error env r path bare (w : World) (e : error) :
  errors_Is (snd (git_PlainClone env (calls w) path bare (clone_options r)))
    ErrRepositoryAlreadyExists = true ->
  (forall h, git_PlainOpen env h path = inr e) ->
  (forall s, Is e s = false) ->
  fst (CloneInto env r path bare w) = Val (Some e)
  /\ calls (snd (CloneInto env r path bare w)) =
       [PlainOpen path (inr e);
        PlainClone path bare (clone_options r)
          (git_PlainClone env (calls w) path bare (clone_options r))]
       ++ calls w.
Proof.
  intros Hexists Hopen Hplain.
  unfold CloneInto, clone_or_update, bind. cbn.
  destruct (git_PlainClone env (calls w) path bare (clone_options r))
    as [gitRepo err].
  cbn in Hexists. rewrite Hexists.
  unfold update_existing, bind, PlainOpen_. cbn. rewrite Hopen. cbn.
  unfold after_clone. cbn. rewrite !Hplain. split; reflexivity.
Qed.

Lemma CloneInto_returns_open_error_witness :
  fst (CloneInto broken_directory_env sample_repo "backup/forge/org/app" false
         init_world) = Val (Some (ErrorString "repository does not exist"))
  /\ calls (snd (CloneInto broken_directory_env sample_repo "backup/forge/org/app"
                   false init_world)) =
       [PlainOpen "backup/forge/org/app" (inr (ErrorString "repository does not exist"));
        PlainClone "backup/forge/org/app" false (clone_options sample_repo)
          (None, Some (Sentinel ErrRepositoryAlreadyExists))].
Proof.
  apply (CloneInto_returns_open_error broken_directory_env sample_repo
           "backup/forge/org/app" false init_world
           (ErrorString "repository does not exist")).
  - reflexivity.
  - intros h. reflexivity.
  - intros s. reflexivity.
Defined.

(** X14: on an existing repository that is not bare, a pull that fails
    with an error that is none of the sentinels ends the sync: the error
    is returned as it is and no fetch is made, so the other branches and
    the tags are not refreshed. *)
Theorem CloneInto_returns_pull_error env r path bare (w : World)
    (g : repo) (wt : worktree) (e : error) :
  errors_Is (snd (git_PlainClone env (calls w) path bare (clone_options r)))
    ErrRepositoryAlreadyExists = true ->
  (forall h, git_PlainOpen env h path = inl g) ->
  (forall h, repo_Config env h g = inl false) ->
  (forall h, repo_Worktree env h g = inl wt) ->
  (forall h o, worktree_Pull env h wt o = Some e) ->
  (forall s, Is e s = false) ->
  fst (CloneInto env r path bare w) = Val (Some e)
  /\ fetches (calls (snd (CloneInto env r path bare w))) = fetches (calls w).
Proof.
  intros Hexists Hopen Hconfig Hworktree Hpull Hplain.
  unfold CloneInto, clone_or_update, bind. cbn.
  destruct (git_PlainClone env (calls w) path bare (clone_options r))
    as [gitRepo err].
  cbn in Hexists. rewrite Hexists.
  unfold update_existing, isBare, bind, PlainOpen_, Config_, Worktree_, Pull_.
  cbn. rewrite Hopen. cbn. rewrite Hconfig. cbn. rewrite Hworktree. cbn.
  rewrite Hpull. unfold after_clone. cbn. rewrite !Hplain.
  split; reflexivity.
Qed.

Lemma CloneInto_returns_pull_error_witness :
  fst (CloneInto dirty_worktree_env sample_repo "backup/forge/org/app" false
         init_world)
  = Val (Some (ErrorString "worktree contains unstaged changes"))
  /\ fetches (calls (snd (CloneInto dirty_worktree_env sample_repo
                            "backup/forge/org/app" false init_world))) = [].
Proof.
  apply (CloneInto_returns_pull_error dirty_worktree_env sample_repo
           "backup/forge/org/app" false init_world 1%nat 7%nat
           (ErrorString "worktree contains unstaged changes")).
  - reflexivity.
  - intros h. reflexivity.
  - intros h. reflexivity.
  - intros h. reflexivity.
  - intros h o. reflexivity.
  - intros s. reflexivity.
Defined.

(** X15: a pull is attempted only on a repository whose configuration
    was read and says that it is not bare: when every configuration
    read either fails or reports a bare repository, [CloneInto] never
    asks for a work tree and never pulls. *)
Theorem CloneInto_bare_never_pulls env r path bare :
  (forall h g, repo_Config env h g <> inl false) ->
  makes_only not_worktree_call (CloneInto env r path bare).
Proof.
  intros Hconfig.
  assert (Hrefresh : forall gitRepo auth,
            makes_only not_worktree_call (fetchAllRefs env r gitRepo auth))
    by (intros; unfold fetchAllRefs; repeat makes_only_step).
  assert (Hupdate : forall auth,
            makes_only not_worktree_call (update_existing env r path auth)).
  { intros auth. unfold update_existing.
    apply makes_only_bind; [makes_only_step | intros opened].
    destruct opened as [g | err]; [| apply makes_only_ret].
    intros w. unfold bind at 1. unfold isBare, bind at 1, Config_ at 1.
    pose proof (Hconfig (calls w) g) as Hc.
    destruct (repo_Config env (calls w) g) as [[|] | err] eqn:Hanswer;
      try congruence; cbn [ret is_nil negb andb].
    - destruct (makes_only_bind not_worktree_call
                  (fetchAllRefs env r (Some g) auth)
                  (fun err => ret (Some g, err)) (Hrefresh _ _)
                  (fun a => makes_only_ret _ _)
                  (record (RepoConfig g (inl true)) w)) as [new [Heq Hall]].
      exists (new ++ [RepoConfig g (inl true)]). split.
      + rewrite Heq. cbn [calls record]. rewrite <- app_assoc. reflexivity.
      + apply Forall_app. split; [exact Hall | repeat constructor].
    - destruct (makes_only_bind not_worktree_call
                  (fetchAllRefs env r (Some g) auth)
                  (fun err => ret (Some g, err)) (Hrefresh _ _)
                  (fun a => makes_only_ret _ _)
                  (record (RepoConfig g (inr err)) w)) as [new [Heq Hall]].
      exists (new ++ [RepoConfig g (inr err)]). split.
      + rewrite Heq. cbn [calls record]. rewrite <- app_assoc. reflexivity.
      + apply Forall_app. split; [exact Hall | repeat constructor]. }
  unfold CloneInto, clone_or_update, after_clone, refresh_other_refs,
    classify_refresh, forceGC.
  repeat first [apply Hrefresh | apply Hupdate | makes_only_step].
Qed.

Lemma CloneInto_bare_never_pulls_witness :
  makes_only not_worktree_call
    (CloneInto existing_mirror_env sample_repo "backup/forge/org/app" true).
Proof.
  apply (CloneInto_bare_never_pulls existing_mirror_env sample_repo
           "backup/forge/org/app" true).
  intros h g. discriminate.
Defined.

(** ** The loop over the repositories *)

(** X16: without [-backup.fail-at-end], the loop over the repositories
    of a source stops at the first repository that fails: the run is the
    same whatever repositories are listed after it, none of them is
    touched, and the loop does not return. *)
Theorem fail_fast_stops_at_first_failure env fl url start
    dir_verdict sync_verdict sourceName
    (before after : list Repository) (r : Repository) :
  failAtEnd fl = false ->
  verdict_holds dir_verdict sync_verdict env fl sourceName r ->
  repo_failed dir_verdict sync_verdict sourceName r = true ->
  forall (t : Tally) (w : World),
    for_range (backup_repo env fl url start sourceName) (before ++ r :: after) t w
    = for_range (backup_repo env fl url start sourceName) (before ++ [r]) t w
    /\ (forall t', fst (for_range (backup_repo env fl url start sourceName)
                          (before ++ r :: after) t w) <> Val t').
Proof.
  intros Hmode Hholds Hfailed.
  induction before as [| r0 rest IH]; intros t w.
  - cbn [app for_range]. unfold bind.
    pose proof (backup_repo_outcome env fl url start dir_verdict sync_verdict
                  sourceName t r w Hholds) as Hstep.
    rewrite Hfailed, Hmode in Hstep. cbn [andb negb] in Hstep.
    destruct (backup_repo env fl url start sourceName t r w) as [o w1].
    cbn [fst] in Hstep. subst o. split; [reflexivity | discriminate].
  - cbn [app for_range]. unfold bind.
    destruct (backup_repo env fl url start sourceName t r0 w) as [[t1 | code |] w1].
    + apply IH.
    + split; [reflexivity | discriminate].
    + split; [reflexivity | discriminate].
Qed.

Lemma fail_fast_stops_at_first_failure_witness :
  for_range (backup_repo sync_failure_env default_flags "" 0 "forge")
    ([repo_named "org/app"] ++ repo_named "org/broken" :: [repo_named "org/later"])
    {| repoCount := 0; errors := 0; failedRepos := [] |} init_world
  = for_range (backup_repo sync_failure_env default_flags "" 0 "forge")
      ([repo_named "org/app"] ++ [repo_named "org/broken"])
      {| repoCount := 0; errors := 0; failedRepos := [] |} init_world
  /\ (forall t', fst (for_range (backup_repo sync_failure_env default_flags "" 0
                                   "forge")
                        ([repo_named "org/app"] ++ repo_named "org/broken"
                           :: [repo_named "org/later"])
                        {| repoCount := 0; errors := 0; failedRepos := [] |}
                        init_world) <> Val t').
Proof.
  apply (fail_fast_stops_at_first_failure sync_failure_env default_flags "" 0
           (fun _ _ => None) (fun _ _ => Some network_error) "forge"
           [repo_named "org/app"] [repo_named "org/later"]
           (repo_named "org/broken")).
  - reflexivity.
  - split; intros; reflexivity.
  - reflexivity.
Defined.

Lemma makes_only_Send (C : call -> Prop) env url b :
  (forall res, C (JsonMarshal b res)) ->
  (forall body res, C (HttpPost url body res)) ->
  makes_only C (SendSlackNotification env url b).
Proof.
  intros Hmarshal Hpost. unfold SendSlackNotification.
  destruct (url =? "")%string; [apply makes_only_ret |].
  apply makes_only_bind.
  - apply makes_only_one
      with (entry := fun w => JsonMarshal b (json_Marshal env (calls w) b));
      [reflexivity | intros; apply Hmarshal].
  - intros m. destruct m as [body | err]; [| apply makes_only_ret].
    apply makes_only_bind.
    + apply makes_only_one
        with (entry := fun w => HttpPost url body
                                  (http_Post env (calls w) url body));
        [reflexivity | intros; apply Hpost].
    + intros resp. destruct resp as [status | err]; [| apply makes_only_ret].
      destruct (negb (status =? StatusOK)); apply makes_only_ret.
Qed.

Lemma makes_only_notify_and_exit (C : call -> Prop) env (A : Type)
    url start count errs failed code :
  (forall c, report_call url c -> C c) ->
  makes_only C (@notify_and_exit env A url start count errs failed code).
Proof.
  intros HC. unfold notify_and_exit.
  apply makes_only_bind; [| intros; apply makes_only_exit].
  destruct (negb (url =? "")%string); [| apply makes_only_ret].
  apply makes_only_bind;
    [apply makes_only_Now; intros; apply HC; exact I | intros now1].
  apply makes_only_bind;
    [apply makes_only_Now; intros; apply HC; exact I | intros now2].
  apply makes_only_bind; [| intros; apply makes_only_ret].
  apply makes_only_Send; intros; apply HC; cbn; auto.
Qed.

(** X17: for every repository, [main]'s loop body first creates the
    directory of the repository; only if that succeeded does it call the
    sync engine, and then only for this repository and this directory.
    Whatever else it calls belongs to a notification. *)
Theorem backup_repo_syncs_into_created_directory
    env fl url start sourceName (t : Tally) (r : Repository) (w : World) :
  let path := repo_path env fl sourceName r in
  let answer := os_MkdirAll env (calls w) path in
  exists new,
    calls (snd (backup_repo env fl url start sourceName t r w)) =
      new ++ MkdirAll path answer :: calls w
    /\ Forall (fun c => report_call url c
                        \/ (answer = None
                            /\ sync_call r path (bareClone fl) c)) new.
Proof.
  intros path answer. subst path answer. unfold repo_path.
  unfold backup_repo. unfold bind at 1. cbn [log_Printf].
  unfold bind at 1. unfold MkdirAll_ at 1. cbn [calls].
  destruct (os_MkdirAll env (calls w)
              (filepath_Join env [targetPath fl; sourceName; FullName r]))
    as [e |] eqn:Hanswer.
  - match goal with
    | |- exists new, calls (snd (?k ?w0)) = _ /\ Forall ?C new =>
        assert (Hrest : makes_only C k);
          [| destruct (Hrest w0) as [new [Heq Hall]];
             exists new; split; [exact Heq | exact Hall]]
    end.
    pose proof (fun A count errs failed code =>
                  makes_only_notify_and_exit
                    (fun c => report_call url c
                              \/ (Some e = None
                                  /\ sync_call r
                                       (filepath_Join env
                                          [targetPath fl; sourceName; FullName r])
                                       (bareClone fl) c))
                    env A url start count errs failed code
                    (fun c Hc => or_introl Hc)) as Hnotify.
    repeat first [apply Hnotify | makes_only_step].
  - match goal with
    | |- exists new, calls (snd (?k ?w0)) = _ /\ Forall ?C new =>
        assert (Hrest : makes_only C k);
          [| destruct (Hrest w0) as [new [Heq Hall]];
             exists new; split; [exact Heq | exact Hall]]
    end.
    pose proof (fun A count errs failed code =>
                  makes_only_notify_and_exit
                    (fun c => report_call url c
                              \/ (@None error = None
                                  /\ sync_call r
                                       (filepath_Join env
                                          [targetPath fl; sourceName; FullName r])
                                       (bareClone fl) c))
                    env A url start count errs failed code
                    (fun c Hc => or_introl Hc)) as Hnotify.
    pose proof (makes_only_weaken _
                  (fun c => report_call url c
                            \/ (@None error = None
                                /\ sync_call r
                                     (filepath_Join env
                                        [targetPath fl; sourceName; FullName r])
                                     (bareClone fl) c))
                  _
                  (fun c Hc => or_intror (conj eq_refl Hc))
                  (makes_only_CloneInto env r
                     (filepath_Join env [targetPath fl; sourceName; FullName r])
                     (bareClone fl)))
      as Hsync.
    repeat first [apply Hnotify | apply Hsync | makes_only_step].
Qed.

(** X18: every [http.Post] that a run of [main] makes itself, that is
    every POST of its notifier, goes to the configured webhook URL.  The
    requests go-git and the source adapters send on their own are not
    calls of [http.Post] and are not spoken of. *)
Theorem main_posts_only_to_webhook env fl :
  makes_only (orchestrator_call (webhook_of env fl)) (main env fl).
Proof.
  set (url := webhook_of env fl).
  assert (Hnotify : forall A start count errs failed code,
            makes_only (orchestrator_call url)
              (@notify_and_exit env A url start count errs failed code)).
  { intros. apply makes_only_notify_and_exit.
    intros c Hc. destruct c; cbn in *; auto. }
  assert (Hsync : forall r path bare,
            makes_only (orchestrator_call url) (CloneInto env r path bare)).
  { intros. eapply makes_only_weaken;
      [| apply makes_only_CloneInto].
    intros c Hc. destruct c; cbn in *; auto; contradiction. }
  assert (Hsend : forall b,
            makes_only (orchestrator_call url) (SendSlackNotification env url b))
    by (intros; apply makes_only_Send; intros; cbn; auto).
  assert (Hrepo : forall start sourceName t r,
            makes_only (orchestrator_call url)
              (backup_repo env fl url start sourceName t r)).
  { intros. unfold backup_repo.
    repeat first [apply Hnotify | apply Hsync | makes_only_step]. }
  assert (Hsource : forall start t s,
            makes_only (orchestrator_call url) (backup_source env fl url start t s)).
  { intros. unfold backup_source.
    repeat first [apply Hnotify
                 | apply makes_only_for_range; intros; apply Hrepo
                 | makes_only_step]. }
  unfold main, loadConfig, finish. fold (webhook_of env fl). fold url.
  repeat first [apply Hsend
               | apply makes_only_for_range; intros; apply Hsource
               | makes_only_step].
Qed.

(** ** The message of a summary *)

Lemma append_assoc (a b c : string) : ((a ++ b) ++ c = a ++ (b ++ c))%string.
Proof.
  induction a as [| ch a IH]; [reflexivity |].
  change (String ch ((a ++ b) ++ c) = String ch (a ++ (b ++ c)))%string.
  rewrite IH. reflexivity.
Qed.

Lemma append_empty_r (a : string) : (a ++ "" = a)%string.
Proof.
  induction a as [| ch a IH]; [reflexivity |].
  change (String ch (a ++ "") = String ch a)%string.
  rewrite IH. reflexivity.
Qed.

Lemma fold_lines (repos : list string) :
  forall text : string,
  fold_left (fun text repo => (text ++ bullet_line repo)%string) repos text
  = (text ++ bullet_lines repos)%string.
Proof.
  induction repos as [| repo rest IH]; intros text.
  - cbn. symmetry. apply append_empty_r.
  - cbn [fold_left bullet_lines fold_right]. rewrite IH. apply append_assoc.
Qed.

(** X19: the text of the field of failed repositories, built by
    appending in a loop, holds one bullet line per repository, in the
    order of the list; the text of two lists put together is the text of
    the first followed by the text of the second. *)
Theorem failedReposText_lines (repos more : list string) :
  failedReposText repos = bullet_lines repos
  /\ failedReposText (repos ++ more)
     = (failedReposText repos ++ failedReposText more)%string.
Proof.
  assert (Hlines : forall l, failedReposText l = bullet_lines l)
    by (intros l; unfold failedReposText; rewrite fold_lines; reflexivity).
  split; [apply Hlines |].
  rewrite !Hlines. induction repos as [| repo rest IH].
  - reflexivity.
  - cbn [app bullet_lines fold_right]. fold (bullet_lines (rest ++ more)).
    fold (bullet_lines rest). rewrite IH. symmetry. apply append_assoc.
Qed.

Lemma attachment_of_agreeing_summary Duration_String Time_Format (b : BackupResult) :
  flag_agrees b ->
  exists a,
    msg_Attachments (createSlackMessage Duration_String Time_Format b) = [a]
    /\ attachment_for b a.
Proof.
  intros [Hcount Hflag]. unfold counts_agree in Hcount.
  eexists. split; [reflexivity |]. unfold attachment_for.
  cbn [att_Color att_Title att_Fields].
  destruct (Success b) eqn:Hsuccess.
  - symmetry in Hflag. apply Z.eqb_eq in Hflag. rewrite Hflag.
    cbn [Z.gtb Z.compare andb]. repeat split; reflexivity.
  - symmetry in Hflag. apply Z.eqb_neq in Hflag.
    assert (Hpos : (ErrorCount b >? 0) = true)
      by (rewrite Z.gtb_ltb; apply Z.ltb_lt; lia).
    assert (Hlen : (0 <? Z.of_nat (List.length (FailedRepos b))) = true)
      by (apply Z.ltb_lt; lia).
    rewrite Hpos, Hlen. cbn [andb app map nth_error option_map field_Title
                               field_Value].
    repeat split; try reflexivity.
    unfold failedReposText. rewrite fold_lines. reflexivity.
Qed.

(** X20: in a run of [main] whose sources list no more repositories
    than an [int] can count, the message [createSlackMessage] builds for
    a summary handed to the notifier has one attachment; for a summary
    with [Success] true it is "good" and has the four fixed fields only,
    for a summary with [Success] false it is "danger" and has, as fifth
    field, the bullet list of all failed repositories. *)
Theorem main_message_lists_failures env fl Duration_String Time_Format
    (b : BackupResult) :
  (forall sources,
     gitbackup_LoadFile env (configFilePath fl) = inl sources ->
     Z.of_nat (List.length (listed sources)) <= max_int) ->
  In b (summaries (calls (snd (main env fl init_world)))) ->
  exists a,
    msg_Attachments (createSlackMessage Duration_String Time_Format b) = [a]
    /\ attachment_for b a.
Proof.
  intros Hmax Hin.
  pose proof (main_flag_agrees env fl Hmax) as Hall.
  rewrite Forall_forall in Hall.
  apply attachment_of_agreeing_summary. apply Hall, Hin.
Qed.

Lemma main_message_lists_failures_witness :
  let b := hd sample_result
             (summaries (calls (snd (main three_repo_env fail_at_end_flags
                                       init_world)))) in
  exists a,
    msg_Attachments (createSlackMessage (fun d => fmt_d d) (fun t _ => fmt_d t) b)
    = [a]
    /\ attachment_for b a.
Proof.
  apply (main_message_lists_failures three_repo_env fail_at_end_flags).
  - intros sources Hload. injection Hload as <-. vm_compute. discriminate.
  - vm_compute. left. reflexivity.
Defined.

(** ** Failures that are not reported *)

(** X21: after a clone that succeeds, a failure of the branch fetch
    does not make [CloneInto] fail: when the tag fetch answers nil,
    [CloneInto] returns nil whatever the branch fetch answered. *)
Theorem CloneInto_hides_branch_failure env r path bare (w : World) (g : repo) :
  git_PlainClone env (calls w) path bare (clone_options r) = (Some g, None) ->
  (forall h, repo_Fetch env h g (tag_fetch_options (url_auth (GitURL r))) = None) ->
  fst (CloneInto env r path bare w) = Val None.
Proof.
  intros Hclone Htag.
  unfold CloneInto, clone_or_update, bind, PlainClone_, logMemoryUsage,
    log_Printf, ret.
  cbn [calls logs]. rewrite Hclone. cbn [errors_Is].
  unfold after_clone. cbn [errors_Is is_nil].
  rewrite refresh_other_refs_run. cbn [fst].
  unfold refresh_answer, tag_answer. rewrite Htag. reflexivity.
Qed.

Lemma CloneInto_hides_branch_failure_witness :
  fst (CloneInto broken_branches_env sample_repo "backup/forge/org/app" false
         init_world) = Val None.
Proof.
  apply (CloneInto_hides_branch_failure broken_branches_env sample_repo
           "backup/forge/org/app" false init_world 1%nat).
  - reflexivity.
  - intros h. reflexivity.
Defined.

Lemma SendSlackNotification_trace_logs env url b (w : World) :
  exists err,
    fst (SendSlackNotification env url b w) = Val err
    /\ logs (snd (SendSlackNotification env url b w)) = logs w.
Proof.
  unfold SendSlackNotification, bind, Marshal_, Post_.
  destruct (url =? "")%string; cbn; [eauto |].
  destruct (json_Marshal env (calls w) b); cbn; [| eauto].
  destruct (http_Post env _ url p); cbn; [| eauto].
  destruct (negb (z =? StatusOK)); cbn; eauto.
Qed.

(** ** Source failures and the end of a run *)

(** X22: when a source fails its connectivity test or fails to list its
    repositories and a webhook is configured, the summary handed to the
    notifier does not carry the counters of the run so far: it has
    [RepoCount] 0, [ErrorCount] 1 and the description of the source
    failure as its only [FailedRepos] entry, whatever earlier sources
    synced or failed; the process exits with 110 for the connectivity
    test and with 100 for the listing. *)
Theorem source_failure_summary env fl url start (t : Tally)
    (s : RepositorySource) (w : World) :
  url <> "" ->
  match Test s, ListRepositories s with
  | Some e, _ =>
      fst (backup_source env fl url start t s w) = Exit 110
      /\ exists now1 now2,
           summaries (calls (snd (backup_source env fl url start t s w))) =
             fatal_summary start 0 1 [connection_note s e] now1 now2
             :: summaries (calls w)
  | None, (_, Some e) =>
      fst (backup_source env fl url start t s w) = Exit 100
      /\ exists now1 now2,
           summaries (calls (snd (backup_source env fl url start t s w))) =
             fatal_summary start 0 1 [communication_note s e] now1 now2
             :: summaries (calls w)
  | None, (_, None) => True
  end.
Proof.
  intros Hurl.
  assert (Hneq : (url =? "")%string = false) by (apply String.eqb_neq; exact Hurl).
  assert (Hfatal : forall (A : Type) note code w0,
            fst (@notify_and_exit env A url start 0 1 [note] code w0) = Exit code
            /\ exists now1 now2,
                 summaries (calls (snd (@notify_and_exit env A url start 0 1 [note]
                                          code w0))) =
                   fatal_summary start 0 1 [note] now1 now2
                   :: summaries (calls w0)).
  { intros A note code w0. split; [apply notify_and_exit_exits |].
    unfold notify_and_exit. rewrite Hneq. cbn [negb].
    unfold bind at 1 2 3. cbn [Now_].
    unfold bind at 1.
    match goal with
    | |- context [SendSlackNotification env url ?b ?w1] =>
        pose proof (SendSlackNotification_summaries env url b w1) as Hsum;
        destruct (SendSlackNotification_returns env url b w1) as [err Herr];
        destruct (SendSlackNotification env url b w1) as [o w2]
    end.
    cbn [fst snd] in *. subst o. rewrite Hneq in Hsum.
    cbn [ret os_Exit snd]. rewrite Hsum.
    eexists. eexists. reflexivity. }
  destruct (Test s) as [e |] eqn:Htest.
  - unfold backup_source. rewrite Htest. unfold bind at 1 2 3 4.
    cbn [log_Printf].
    match goal with
    | |- context [@notify_and_exit env ?A url start 0 1 [?note] ?code ?w0] =>
        destruct (Hfatal A note code w0) as [Hexit [now1 [now2 Hsum]]]
    end.
    split; [exact Hexit | exists now1, now2; rewrite Hsum; reflexivity].
  - destruct (ListRepositories s) as [repos [e |]] eqn:Hlist; [| exact I].
    unfold backup_source. rewrite Htest, Hlist. unfold bind at 1 2 3 4.
    cbn [log_Printf].
    match goal with
    | |- context [@notify_and_exit env ?A url start 0 1 [?note] ?code ?w0] =>
        destruct (Hfatal A note code w0) as [Hexit [now1 [now2 Hsum]]]
    end.
    split; [exact Hexit | exists now1, now2; rewrite Hsum; reflexivity].
Qed.

Lemma source_failure_summary_witness :
  fst (backup_source base_env fail_at_end_flags "https://hooks.example.org/T0" 0
         {| repoCount := 7; errors := 2;
            failedRepos := ["org/a (x)"; "org/b (y)"] |}
         unreachable_source init_world) = Exit 110
  /\ exists now1 now2,
       summaries (calls (snd (backup_source base_env fail_at_end_flags
                                "https://hooks.example.org/T0" 0
                                {| repoCount := 7; errors := 2;
                                   failedRepos := ["org/a (x)"; "org/b (y)"] |}
                                unreachable_source init_world))) =
         fatal_summary 0 0 1
           [connection_note unreachable_source (ErrorString "401 Unauthorized")]
           now1 now2
         :: summaries (calls init_world).
Proof.
  apply (source_failure_summary base_env fail_at_end_flags
           "https://hooks.example.org/T0" 0
           {| repoCount := 7; errors := 2;
              failedRepos := ["org/a (x)"; "org/b (y)"] |}
           unreachable_source init_world).
  discriminate.
Defined.

(** X23: at the end of a run, [finish] always writes the line with the
    counters to the log, and its exit status depends on the error
    counter alone: it exits with 100 when the counter is positive and
    returns otherwise, whether there is a webhook or not and whether the
    notification could be delivered or not. *)
Theorem finish_status_ignores_notifier env url start (t : Tally) (w : World) :
  fst (finish env url start t w) = (if errors t >? 0 then Exit 100 else Val tt)
  /\ In (summary_line env start t (calls w)) (logs (snd (finish env url start t w))).
Proof.
  split; [apply finish_outcome |].
  unfold finish, summary_line. unfold bind at 1. cbn [Now_].
  unfold bind at 1. cbn [log_Printf]. unfold bind at 1.
  match goal with
  | |- context [(if negb (url =? "")%string then ?c1 else ?c2) ?w0] =>
      assert (Hkeep : forall line, In line (logs w0) ->
                In line (logs (snd ((if negb (url =? "")%string then c1 else c2)
                                      w0))))
  end.
  { intros line Hline. destruct (negb (url =? "")%string).
    - unfold bind.
      match goal with
      | |- context [SendSlackNotification env url ?b ?w1] =>
          destruct (SendSlackNotification_trace_logs env url b w1) as [err [Hfst Hlogs]];
          destruct (SendSlackNotification env url b w1) as [o w2]
      end.
      cbn [fst snd] in *. subst o.
      destruct err; cbn [log_Printf snd logs]; right; rewrite Hlogs; exact Hline.
    - cbn [log_Printf snd logs]. right. exact Hline. }
  match goal with
  | |- context [(if negb (url =? "")%string then ?c1 else ?c2) ?w0] =>
      specialize (Hkeep (summary_line env start t (calls w))
                    ltac:(left; reflexivity));
      destruct ((if negb (url =? "")%string then c1 else c2) w0)
        as [[[] | code |] w3]
  end; cbn [snd] in Hkeep.
  - destruct (errors t >? 0); exact Hkeep.
  - exact Hkeep.
  - exact Hkeep.
Qed.
